(** * pupil_preview: the preview plugin ([preview.py])

    A shallow embedding of the sampling, file-name codec, loader and
    supervision code of [preview.py], followed by the properties of the
    specification that were checked against it.

    Conventions of the embedding:
    - Python [int] is [Z]; Python [str] is [string] (a sequence of 8-bit
      characters); Python [float] is [pyfloat], an exact description of a
      binary64 value;
    - a Python call that can raise returns a [result]: [Ok v] or
      [Raise e] with [e : exn];
    - external collaborators (OpenCV, the 2D detector, ZeroMQ, pipes and
      the file system) appear as fields of explicit oracle records. *)

From Stdlib Require Import ZArith List Bool Lia Ascii String.
From Stdlib Require Import Strings.Byte.
From Stdlib Require Import DecimalString DecimalZ DecimalN DecimalPos DecimalFacts.
From Stdlib Require Import Sorting.Sorted Sorting.Permutation.
Import ListNotations.

Local Open Scope string_scope.
Local Open Scope Z_scope.

Set Implicit Arguments.

(* ================================================================== *)
(** * Python values *)
(* ================================================================== *)

(** The exception classes this module raises or lets through.  The
    first group derives from [Exception]; [KeyboardInterrupt] and
    [SystemExit] derive from [BaseException] only. *)
Inductive exn : Type :=
| ValueError (msg : string)
| NotImplementedError (msg : string)
| RuntimeWarning (msg : string)
| RuntimeError (msg : string)
| FileNotFoundError (msg : string)
| FileExistsError (msg : string)
| ZeroDivisionError
| AssertionError (msg : string)
| BrokenPipeError
| IndexError
| AttributeError (msg : string)
| CvError
| ZMQError
| KeyboardInterrupt
| SystemExit.

(** [isinstance(e, Exception)]. *)
Definition is_Exception (e : exn) : bool :=
  match e with
  | KeyboardInterrupt | SystemExit => false
  | _ => true
  end.

Inductive result (A : Type) : Type :=
| Ok (v : A)
| Raise (e : exn).
Arguments Ok {A} v.
Arguments Raise {A} e.

Definition bind {A B : Type} (x : result A) (f : A -> result B) : result B :=
  match x with
  | Ok v => f v
  | Raise e => Raise e
  end.

Notation "x <- c1 ;; c2" := (bind c1 (fun x => c2))
  (at level 61, c1 at next level, right associativity).

(* ------------------------------------------------------------------ *)
(** ** Characters and strings *)

Definition newline : ascii := ascii_of_nat 10.

Definition in_range (lo hi c : ascii) : bool :=
  (nat_of_ascii lo <=? nat_of_ascii c)%nat && (nat_of_ascii c <=? nat_of_ascii hi)%nat.

Definition is_digit (c : ascii) : bool := in_range "0" "9" c.
Definition is_lower (c : ascii) : bool := in_range "a" "z" c.

Fixpoint all_chars (p : ascii -> bool) (s : string) : bool :=
  match s with
  | EmptyString => true
  | String c s' => p c && all_chars p s'
  end.

(** A non-empty run of ASCII digits. *)
Definition is_digits (s : string) : bool :=
  negb (s =? "")%string && all_chars is_digit s.

(** A non-empty run of lower-case ASCII letters. *)
Definition is_word (s : string) : bool :=
  negb (s =? "")%string && all_chars is_lower s.

(** [s[:n]]. *)
Fixpoint take (n : nat) (s : string) : string :=
  match n, s with
  | S n', String c s' => String c (take n' s')
  | _, _ => EmptyString
  end.

(** [str(z)] for a Python [int]. *)
Definition str_int (z : Z) : string := NilZero.string_of_int (Z.to_int z).

(** The value of a run of decimal digits (leading zeros allowed). *)
Definition digits_value (s : string) : Z :=
  match NilEmpty.uint_of_string s with
  | Some d => Z.of_uint d
  | None => 0
  end.

(** [int(s)]: an optional sign followed by a non-empty run of decimal
    digits; [ValueError] for anything else.  (Surrounding white space and
    digit-group underscores, which [int] also accepts, are not modelled: no
    string this module converts contains them.) *)
Definition py_int (s : string) : result Z :=
  let bad := Raise (ValueError ("invalid literal for int() with base 10: '" ++ s ++ "'")) in
  match s with
  | String c s' =>
      if Ascii.eqb c "-" then (if is_digits s' then Ok (- digits_value s') else bad)
      else if Ascii.eqb c "+" then (if is_digits s' then Ok (digits_value s') else bad)
      else if is_digits s then Ok (digits_value s) else bad
  | EmptyString => bad
  end.

(** [s.split(".")[-1]]: the text after the last dot (all of [s] when it has
    none). *)
Fixpoint last_segment (s : string) : string :=
  match s with
  | EmptyString => EmptyString
  | String c s' =>
      if all_chars (fun x => negb (Ascii.eqb x ".")) s'
      then (if Ascii.eqb c "." then s' else s)
      else last_segment s'
  end.

(* ------------------------------------------------------------------ *)
(** ** Floats *)

(** A binary64 value: NaN, an infinity, or [(-1)^neg * m * 2^e] with
    [0 <= m].  Negative zero is [FFinite true 0 e]. *)
Inductive pyfloat : Type :=
| FNaN
| FInf (neg : bool)
| FFinite (neg : bool) (m e : Z).

(** [a / b] rounded to the nearest integer, ties to even ([0 <= a],
    [0 < b]). *)
Definition round_half_even (a b : Z) : Z :=
  let q := a / b in
  let r := a mod b in
  if 2 * r <? b then q
  else if b <? 2 * r then q + 1
  else if Z.even q then q else q + 1.

(** The binary64 value nearest to [n / d] ([0 <= n], [0 < d]), as
    [float()] computes it from a decimal literal: 53 bits of mantissa,
    gradual underflow below [2^-1022], overflow to infinity. *)
Definition b64_of_ratio (n d : Z) : pyfloat :=
  if n =? 0 then FFinite false 0 0
  else
    let l := Z.log2 n - Z.log2 d in
    let above := if 0 <=? l then d * 2 ^ l <=? n else d <=? n * 2 ^ (- l) in
    let fl := if above then l else l - 1 in
    let e := Z.max (fl - 52) (-1074) in
    let m := if 0 <=? e then round_half_even n (d * 2 ^ e)
             else round_half_even (n * 2 ^ (- e)) d in
    if (971 <? e) || ((e =? 971) && (2 ^ 53 <=? m)) then FInf false
    else FFinite false m e.

Definition split_dot_fix :=
  fix go (acc s : string) : string * option string :=
    match s with
    | EmptyString => (acc, None)
    | String c s' =>
        if Ascii.eqb c "." then (acc, Some s') else go (acc ++ String c "") s'
    end.

(** [s.partition(".")] without the separator: the text before the first
    dot and, when there is a dot, the text after it. *)
Definition split_dot (s : string) : string * option string := split_dot_fix "" s.

(** [float(s)] for a string over the alphabet of a capture group: a
    decimal literal, or one of the words [nan], [inf], [infinity];
    [ValueError] for anything else. *)
Definition py_float (s : string) : result pyfloat :=
  let bad := Raise (ValueError ("could not convert string to float: '" ++ s ++ "'")) in
  if (s =? "nan")%string then Ok FNaN
  else if (s =? "inf")%string || (s =? "infinity")%string then Ok (FInf false)
  else
    match split_dot s with
    | (i, None) =>
        if is_digits i then Ok (b64_of_ratio (digits_value i) 1) else bad
    | (i, Some f) =>
        if all_chars is_digit i && all_chars is_digit f
           && negb ((i =? "")%string && (f =? "")%string)
        then Ok (b64_of_ratio (digits_value (i ++ f)) (10 ^ Z.of_nat (String.length f)))
        else bad
    end.

(** The value of a finite float in units of [10^-4], rounded to nearest,
    ties to even: what the presentation type [.4f] prints. *)
Definition scaled4 (m e : Z) : Z :=
  if 0 <=? e then m * 2 ^ e * 10000
  else round_half_even (m * 10000) (2 ^ (- e)).

Definition digit_char (d : Z) : ascii := ascii_of_nat (48 + Z.to_nat d).

(** [n] units of [10^-4] in fixed-point notation with four decimals. *)
Definition fixed4 (n : Z) : string :=
  let f := n mod 10000 in
  str_int (n / 10000) ++ "."
    ++ String (digit_char (f / 1000))
         (String (digit_char (f / 100 mod 10))
            (String (digit_char (f / 10 mod 10))
               (String (digit_char (f mod 10)) ""))).

Fixpoint zeros (n : nat) : string :=
  match n with
  | O => ""
  | S n' => String "0" (zeros n')
  end.

(** Sign-aware zero padding up to [width] characters (the [0] flag). *)
Definition zero_pad (width : nat) (sign body : string) : string :=
  sign ++ zeros (width - String.length sign - String.length body) ++ body.

(** [format(x, "05.4f")]. *)
Definition format_05_4f (x : pyfloat) : string :=
  match x with
  | FNaN => zero_pad 5 "" "nan"
  | FInf neg => zero_pad 5 (if neg then "-" else "") "inf"
  | FFinite neg m e => zero_pad 5 (if neg then "-" else "") (fixed4 (scaled4 m e))
  end.

(** [0.0 <= x <= 1.0] with the sign bit clear. *)
Definition in_unit_interval (x : pyfloat) : bool :=
  match x with
  | FFinite false m e =>
      (0 <=? m) && (if 0 <=? e then m * 2 ^ e <=? 1 else m <=? 2 ^ (- e))
  | _ => false
  end.


(* ================================================================== *)
(** * The pattern languages used by the loader *)
(* ================================================================== *)

(* ------------------------------------------------------------------ *)
(** ** [re]: the fragment of the regular-expression syntax the loader
       writes *)

(** Literal characters, [.], a character range [[a-b]], concatenation,
    alternation, the greedy quantifiers [?] and [+] (the latter on a
    range), and numbered capture groups. *)
Inductive regex : Type :=
| Eps
| Chr (c : ascii)
| AnyChar
| Range (lo hi : ascii)
| Seq (r1 r2 : regex)
| Alt (r1 r2 : regex)
| Opt (r : regex)
| PlusRange (lo hi : ascii)
| Group (i : nat) (r : regex).

Definition is_meta (c : ascii) : bool :=
  existsb (Ascii.eqb c)
    ["."; "^"; "$"; "*"; "+"; "?"; "{"; "}"; "["; "]"; "\"; "|"; "("; ")"]%char.

Definition is_alnum (c : ascii) : bool :=
  is_digit c || is_lower c || in_range "A" "Z" c.

(** [re.compile]: a recursive-descent parser.  Each function returns the
    expression read, the remaining input and the number of the next capture
    group (groups are numbered from 1 by their opening parenthesis).
    Syntax outside the fragment gives [None]. *)
Fixpoint parse_alt (fuel : nat) (s : string) (g : nat) {struct fuel}
  : option (regex * string * nat) :=
  match fuel with
  | O => None
  | S fuel' =>
      match parse_seq fuel' s g with
      | Some (r1, String "|" s1, g1) =>
          match parse_alt fuel' s1 g1 with
          | Some (r2, s2, g2) => Some (Alt r1 r2, s2, g2)
          | None => None
          end
      | other => other
      end
  end
with parse_seq (fuel : nat) (s : string) (g : nat) {struct fuel}
  : option (regex * string * nat) :=
  match fuel with
  | O => None
  | S fuel' =>
      match s with
      | EmptyString => Some (Eps, s, g)
      | String "|" _ => Some (Eps, s, g)
      | String ")" _ => Some (Eps, s, g)
      | _ =>
          match parse_atom fuel' s g with
          | Some (a, s1, g1) =>
              match
                match s1 with
                | String "?" s2 => Some (Opt a, s2)
                | String "+" s2 =>
                    match a with
                    | Range lo hi => Some (PlusRange lo hi, s2)
                    | _ => None
                    end
                | String "*" _ => None
                | String "{" _ => None
                | _ => Some (a, s1)
                end
              with
              | Some (q, s2) =>
                  match parse_seq fuel' s2 g1 with
                  | Some (Eps, s3, g3) => Some (q, s3, g3)
                  | Some (rest, s3, g3) => Some (Seq q rest, s3, g3)
                  | None => None
                  end
              | None => None
              end
          | None => None
          end
      end
  end
with parse_atom (fuel : nat) (s : string) (g : nat) {struct fuel}
  : option (regex * string * nat) :=
  match fuel with
  | O => None
  | S fuel' =>
      match s with
      | String "(" (String "?" (String ":" s1)) =>
          match parse_alt fuel' s1 g with
          | Some (r, String ")" s2, g2) => Some (r, s2, g2)
          | _ => None
          end
      | String "(" (String "?" _) => None
      | String "(" s1 =>
          match parse_alt fuel' s1 (S g) with
          | Some (r, String ")" s2, g2) => Some (Group g r, s2, g2)
          | _ => None
          end
      | String "[" (String lo (String "-" (String hi (String "]" s1)))) =>
          if is_alnum lo && is_alnum hi then Some (Range lo hi, s1, g) else None
      | String "\" (String c s1) =>
          if is_alnum c then None else Some (Chr c, s1, g)
      | String "." s1 => Some (AnyChar, s1, g)
      | String c s1 => if is_meta c then None else Some (Chr c, s1, g)
      | EmptyString => None
      end
  end.

Definition re_compile (pattern : string) : option regex :=
  match parse_alt (3 * String.length pattern + 3) pattern 1 with
  | Some (r, EmptyString, _) => Some r
  | _ => None
  end.

(** The text of each capture group, most recent first. *)
Definition captures : Type := list (nat * string).

(** [match.group(i)]. *)
Fixpoint group (i : nat) (cs : captures) : string :=
  match cs with
  | [] => ""
  | (j, s) :: cs' => if Nat.eqb i j then s else group i cs'
  end.

(** The part of [s] consumed when [rest] remains. *)
Definition consumed (s rest : string) : string :=
  take (String.length s - String.length rest) s.

(** [[lo-hi]+], greedy: the longest run first, then shorter ones. *)
Fixpoint plus_range {A : Type} (lo hi : ascii) (s : string)
  (k : string -> option A) : option A :=
  match s with
  | EmptyString => None
  | String c s' =>
      if in_range lo hi c then
        match plus_range lo hi s' k with
        | Some x => Some x
        | None => k s'
        end
      else None
  end.

(** The backtracking matcher: the alternatives are explored in the order
    of [re] (left branch of [|] first, greedy quantifiers), and [k] is the
    rest of the match. *)
Fixpoint rmatch {A : Type} (r : regex) (s : string) (cs : captures)
  (k : string -> captures -> option A) : option A :=
  match r with
  | Eps => k s cs
  | Chr c =>
      match s with
      | String c' s' => if Ascii.eqb c c' then k s' cs else None
      | EmptyString => None
      end
  | AnyChar =>
      match s with
      | String c' s' => if Ascii.eqb c' newline then None else k s' cs
      | EmptyString => None
      end
  | Range lo hi =>
      match s with
      | String c' s' => if in_range lo hi c' then k s' cs else None
      | EmptyString => None
      end
  | Seq r1 r2 => rmatch r1 s cs (fun s' cs' => rmatch r2 s' cs' k)
  | Alt r1 r2 =>
      match rmatch r1 s cs k with
      | Some x => Some x
      | None => rmatch r2 s cs k
      end
  | Opt r1 =>
      match rmatch r1 s cs k with
      | Some x => Some x
      | None => k s cs
      end
  | PlusRange lo hi => plus_range lo hi s (fun s' => k s' cs)
  | Group i r1 => rmatch r1 s cs (fun s' cs' => k s' ((i, consumed s s') :: cs'))
  end.

(** [pattern.fullmatch(s)]. *)
Definition fullmatch (r : regex) (s : string) : option captures :=
  rmatch r s [] (fun rest cs => if (rest =? "")%string then Some cs else None).

(** [re.compile(r"{.*?}").sub(repl, s)]: every [{...}] (the shortest,
    without a newline inside) is replaced by [repl]; [inside] is set while
    the characters of a matched [{...}] are being skipped. *)
Fixpoint closes (s : string) : bool :=
  match s with
  | EmptyString => false
  | String c s' =>
      if Ascii.eqb c "}" then true
      else if Ascii.eqb c newline then false
      else closes s'
  end.

Fixpoint sub_fields_from (inside : bool) (repl s : string) : string :=
  match s with
  | EmptyString => EmptyString
  | String c s' =>
      if inside then sub_fields_from (negb (Ascii.eqb c "}")) repl s'
      else if Ascii.eqb c "{" && closes s' then repl ++ sub_fields_from true repl s'
      else String c (sub_fields_from false repl s')
  end.

Definition sub_fields (repl s : string) : string := sub_fields_from false repl s.

(* ------------------------------------------------------------------ *)
(** ** [Path.glob]: shell wildcards *)

(** [fnmatch] restricted to literal characters, [*] and [?]. *)
Fixpoint fnmatch (pat name : string) : bool :=
  match pat with
  | EmptyString => (name =? "")%string
  | String "*" pat' =>
      (fix star (n : string) : bool :=
         fnmatch pat' n
         || match n with
            | EmptyString => false
            | String _ n' => star n'
            end) name
  | String "?" pat' =>
      match name with
      | EmptyString => false
      | String _ n' => fnmatch pat' n'
      end
  | String c pat' =>
      match name with
      | EmptyString => false
      | String c' n' => Ascii.eqb c c' && fnmatch pat' n'
      end
  end.

(** [folder.glob(pattern)] for a pattern without a directory part: the
    entries of the folder, in the order the file system lists them, whose
    name matches. *)
Definition glob (pattern : string) (listing : list string) : list string :=
  filter (fnmatch pattern) listing.

(* ================================================================== *)
(** * [PreviewFrame] *)
(* ================================================================== *)

(** [PreviewFrame.Format]: the image format of an exported frame. *)
Inductive Format : Type := JPEG | PNG | BMP.

(** The members in definition order, as iterating the enumeration yields
    them. *)
Definition Format_members : list Format := [JPEG; PNG; BMP].

(** [Format.value], which [Format.__str__] returns. *)
Definition Format_str (f : Format) : string :=
  match f with
  | JPEG => "jpg"
  | PNG => "png"
  | BMP => "bmp"
  end.

Definition Format_eqb (a b : Format) : bool :=
  match a, b with
  | JPEG, JPEG | PNG, PNG | BMP, BMP => true
  | _, _ => false
  end.

(** [Format.from_extension]. *)
Definition from_extension (extension : string) : result Format :=
  match find (fun f => (Format_str f =? extension)%string) Format_members with
  | Some f => Ok f
  | None => Raise (ValueError ("Unknown extension '" ++ extension ++ "'"))
  end.

Definition FILE_FORMAT : string := "eye{}_frame{}_confidence{:05.4f}.{}".

(** The meta data of a frame extracted as a preview. *)
Record PreviewFrame : Type := mkPreviewFrame {
  eye_id : Z;
  frame_num : Z;
  confidence : pyfloat;
  format : Format
}.

(** The arguments [str.format] receives here. *)
Inductive arg : Type :=
| AInt (z : Z)
| AFloat (x : pyfloat)
| AEnum (f : Format).

(** One replacement field: [{}] prints [str(a)] and [{:05.4f}] prints a
    float in fixed point.  [None] stands for the combinations of
    specification and argument that this module never forms. *)
Definition format_field (spec : string) (a : arg) : option string :=
  match a with
  | AInt z => if (spec =? "")%string then Some (str_int z) else None
  | AEnum f => if (spec =? "")%string then Some (Format_str f) else None
  | AFloat x => if (spec =? ":05.4f")%string then Some (format_05_4f x) else None
  end.

(** [str.format] on [template] with automatically numbered fields; [cur]
    holds the text of the field being read. *)
Fixpoint str_format_from (cur : option string) (template : string) (args : list arg)
  : option string :=
  match template with
  | EmptyString =>
      match cur with
      | None => Some EmptyString
      | Some _ => None
      end
  | String c t' =>
      match cur with
      | None =>
          if Ascii.eqb c "{" then str_format_from (Some "") t' args
          else if Ascii.eqb c "}" then None
          else option_map (String c) (str_format_from None t' args)
      | Some spec =>
          if Ascii.eqb c "}" then
            match args with
            | a :: args' =>
                match format_field spec a, str_format_from None t' args' with
                | Some x, Some y => Some (x ++ y)
                | _, _ => None
                end
            | [] => None
            end
          else str_format_from (Some (spec ++ String c "")) t' args
      end
  end.

Definition str_format (template : string) (args : list arg) : option string :=
  str_format_from None template args.

(** [PreviewFrame.__str__]: the file name of the frame. *)
Definition PreviewFrame_str (self : PreviewFrame) : string :=
  match
    str_format FILE_FORMAT
      [AInt (eye_id self); AInt (frame_num self);
       AFloat (confidence self); AEnum (format self)]
  with
  | Some s => s
  | None => ""
  end.

(** The two patterns [load_all] derives from [FILE_FORMAT]. *)
Definition file_pattern : string := sub_fields "*" FILE_FORMAT.

Definition info_pattern : string :=
  sub_fields "([0-9]+(?:\.[0-9]+)?|[a-z]+)" FILE_FORMAT.

(** The body of a capture group of [info_pattern]. *)
Definition info_group : regex :=
  Alt (Seq (PlusRange "0" "9") (Opt (Seq (Chr ".") (PlusRange "0" "9"))))
      (PlusRange "a" "z").

(** [collections]: a dictionary from eye id to the frames of that eye, in
    insertion order of the keys. *)
Definition collections : Type := list (Z * list PreviewFrame).

(** [collections[k].append(f)] on a [defaultdict(list)]. *)
Fixpoint append_to (k : Z) (f : PreviewFrame) (c : collections) : collections :=
  match c with
  | [] => [(k, [f])]
  | (k', l) :: c' =>
      if k =? k' then (k', (l ++ [f])%list) :: c' else (k', l) :: append_to k f c'
  end.

(** The constructor call of the loop body: the four groups converted in
    argument order. *)
Definition frame_of_match (cs : captures) : result PreviewFrame :=
  e <- py_int (group 1 cs) ;;
  n <- py_int (group 2 cs) ;;
  c <- py_float (group 3 cs) ;;
  f <- from_extension (group 4 cs) ;;
  Ok (mkPreviewFrame e n c f).

(** The loop over the globbed files. *)
Fixpoint scan (info_extractor : regex) (files : list string) (c : collections)
  : result collections :=
  match files with
  | [] => Ok c
  | file :: rest =>
      match fullmatch info_extractor file with
      | None => scan info_extractor rest c
      | Some cs =>
          frame <- frame_of_match cs ;;
          scan info_extractor rest (append_to (eye_id frame) frame c)
      end
  end.

(** [list.sort(key=lambda x: x.frame_num)]: ascending and stable. *)
Fixpoint insert_frame (f : PreviewFrame) (l : list PreviewFrame) : list PreviewFrame :=
  match l with
  | [] => [f]
  | g :: l' =>
      if frame_num f <=? frame_num g then f :: l else g :: insert_frame f l'
  end.

Fixpoint sort_frames (l : list PreviewFrame) : list PreviewFrame :=
  match l with
  | [] => []
  | f :: l' => insert_frame f (sort_frames l')
  end.

(** The next item of every iterator, or [None] as soon as one of them is
    exhausted. *)
Fixpoint heads {A : Type} (ls : list (list A)) : option (list A) :=
  match ls with
  | [] => Some []
  | [] :: _ => None
  | (x :: _) :: ls' => option_map (cons x) (heads ls')
  end.

Fixpoint zip_upto {A : Type} (n : nat) (ls : list (list A)) : list (list A) :=
  match n with
  | O => []
  | S n' =>
      match heads ls with
      | Some t => t :: zip_upto n' (map (@tl A) ls)
      | None => []
      end
  end.

(** [zip] applied to the lists of [ls] as separate arguments and collected
    in a tuple: nothing without arguments, otherwise tuples until
    the shortest argument runs out. *)
Definition zip_star {A : Type} (ls : list (list A)) : list (list A) :=
  match ls with
  | [] => []
  | l :: _ => zip_upto (List.length l) ls
  end.

(** The expression [re.compile] builds from [info_pattern]. *)
Definition lit (s : string) (r : regex) : regex :=
  fold_right (fun c acc => Seq (Chr c) acc) r (list_ascii_of_string s).

Definition info_extractor : regex :=
  lit "eye" (Seq (Group 1 info_group)
    (lit "_frame" (Seq (Group 2 info_group)
       (lit "_confidence" (Seq (Group 3 info_group)
          (Seq AnyChar (Group 4 info_group))))))).

(** What the loop of [load_all] does with one entry of the folder:
    [None] when it is not visited or is skipped, otherwise the result of
    the constructor call. *)
Definition decode_with (file_pattern : string) (info_extractor : regex) (name : string)
  : option (result PreviewFrame) :=
  if fnmatch file_pattern name then
    match fullmatch info_extractor name with
    | Some cs => Some (frame_of_match cs)
    | None => None
    end
  else None.

Definition decode_name (name : string) : option (result PreviewFrame) :=
  decode_with file_pattern info_extractor name.

(** The first part of [load_all]: the values of [collections] after each
    of them has been sorted.  [listing] is the names of the entries of the
    folder in the order the file system yields them. *)
Definition sorted_collections (listing : list string) : result (list (list PreviewFrame)) :=
  match re_compile info_pattern with
  | None => Raise (ValueError "re.error")
  | Some info_extractor =>
      c <- scan info_extractor (glob file_pattern listing) [] ;;
      Ok (map (fun kv => sort_frames (snd kv)) c)
  end.

(** [PreviewFrame.load_all(folder)]. *)
Definition load_all (listing : list string) : result (list (list PreviewFrame)) :=
  groups <- sorted_collections listing ;;
  Ok (zip_star groups).

(* ================================================================== *)
(** * [PreviewGenerator] *)
(* ================================================================== *)

(** A [numpy] array of bytes with its shape. *)
Record image : Type := mkImage {
  shape : list Z;
  pixels : list byte
}.

(** Values of the detector settings. *)
Inductive setting : Type :=
| SInt (z : Z)
| SBool (b : bool)
| SText (s : string).

Definition settings : Type := list (string * setting).

(** [d.update(other)] on dictionaries. *)
Fixpoint dict_set (k : string) (v : setting) (d : settings) : settings :=
  match d with
  | [] => [(k, v)]
  | (k', v') :: d' =>
      if (k =? k')%string then (k, v) :: d' else (k', v') :: dict_set k v d'
  end.

Definition dict_update (d other : settings) : settings :=
  fold_left (fun acc kv => dict_set (fst kv) (snd kv) acc) other d.

(** The collaborators outside this module: the image codec and colour
    conversions of OpenCV and the 2D pupil detector. *)
Record Externals : Type := mkExternals {
  (** [cv2.imdecode(data, cv2.IMREAD_COLOR)]; [None] when the buffer does
      not hold an image *)
  imdecode : list byte -> option image;
  (** [cv2.cvtColor(img, cv2.COLOR_BGR2GRAY)] *)
  bgr2gray : image -> image;
  (** [cv2.cvtColor(img, cv2.COLOR_GRAY2BGR)] *)
  gray2bgr : image -> image;
  (** the settings a [Detector_2D] built without arguments reports *)
  detector_defaults : settings;
  (** the ["confidence"] entry of [Detector_2D(settings).detect(frame, roi)],
      from the grayscale and colour views of the frame *)
  detect_confidence : settings -> image -> image -> pyfloat
}.

(** A frame message of the bus: [payload["format"]], [payload["width"]],
    [payload["height"]] and [payload["__raw_data__"]]. *)
Record Payload : Type := mkPayload {
  p_format : string;
  p_width : Z;
  p_height : Z;
  p_raw_data : list (list byte)
}.

(** A signed 64-bit integer, as [numpy] computes with. *)
Definition wrap64 (z : Z) : Z := (z + 2 ^ 63) mod 2 ^ 64 - 2 ^ 63.

(** [np.prod(shape)] on a list of integers: an [int64] product. *)
Definition np_prod (l : list Z) : Z :=
  fold_left (fun acc x => wrap64 (acc * x)) l 1.

(** [data.reshape(shape)]: the sizes must be non-negative here (two
    dimensions are never both inferred) and multiply to [len(data)]. *)
Definition reshape (data : list byte) (shp : list Z) : result image :=
  if forallb (fun d => 0 <=? d) shp
     && (fold_left Z.mul shp 1 =? Z.of_nat (List.length data))
  then Ok (mkImage shp data)
  else Raise (ValueError "cannot reshape array").

(** A call of [PreviewFrame.save]: the frame, whose [__str__] names the
    file inside the folder, and the image [cv2.imwrite] receives. *)
Definition file : Type := (PreviewFrame * image)%type.

Module ImageStream.

Record t : Type := mk {
  frame_per_frames : Z;
  folder : string;
  frame_size : Z * Z;
  eye_id : Z;
  frame_format : Format;
  counter : Z;
  detector : settings
}.

(** [ImageStream.__init__]. *)
Definition init (E : Externals) (eye_id frame_per_frames : Z) (folder : string)
  (frame_size : Z * Z) (frame_format : Format) (detector_parameters : settings) : t :=
  let initial :=
    dict_update (detector_defaults E)
      [("pupil_size_min", SInt 40); ("pupil_size_max", SInt 200);
       ("coarse_detection", SBool false)] in
  mk frame_per_frames folder frame_size eye_id frame_format 0
     (if (0 <? List.length detector_parameters)%nat
      then dict_update initial detector_parameters
      else initial).

Definition supported (fmt : string) : bool :=
  existsb (String.eqb fmt) ["gray"; "bgr"; "jpeg"].

(** The shape the stream expects: rows, columns and, unless the format
    is [gray], three channels. *)
Definition expected_shape (self : t) (fmt : string) : list Z :=
  ([snd (frame_size self); fst (frame_size self)]
     ++ (if (fmt =? "gray")%string then [] else [3]))%list.

(** The grayscale and colour views of the decoded frame. *)
Definition views (E : Externals) (fmt : string) (shp : list Z) (data : list byte)
  : result (image * image) :=
  if (fmt =? "jpeg")%string then
    match imdecode E data with
    | Some raw_frame => Ok (bgr2gray E raw_frame, raw_frame)
    | None => Raise CvError
    end
  else
    raw_frame <- reshape data shp ;;
    if (List.length shp =? 2)%nat
    then Ok (raw_frame, gray2bgr E raw_frame)
    else Ok (bgr2gray E raw_frame, raw_frame).

(** [self.__counter += 1]. *)
Definition tick (self : t) : t :=
  mk (frame_per_frames self) (folder self) (frame_size self) (eye_id self)
     (frame_format self) (counter self + 1) (detector self).

(** [payload["__raw_data__"][-1]]. *)
Definition last_buffer (payload : Payload) : option (list byte) :=
  hd_error (rev (p_raw_data payload)).

(** [ImageStream.add]: the stream after the call (the counter is
    incremented before anything can raise), the file written by the call,
    if any, and the value returned or the exception raised. *)
Definition add (E : Externals) (self : t) (payload : Payload)
  : t * list file * result bool :=
  let self := tick self in
  if frame_per_frames self =? 0 then (self, [], Raise ZeroDivisionError)
  else if counter self mod frame_per_frames self =? 0 then
    if negb (supported (p_format payload)) then
      (self, [],
       Raise (NotImplementedError
                ("The eye frame format '" ++ p_format payload
                   ++ "' is currently not supported!")))
    else
      let shp := expected_shape self (p_format payload) in
      match last_buffer payload with
      | None => (self, [], Raise IndexError)
      | Some data =>
          if (Z.of_nat (List.length data) =? np_prod shp)
             || (p_format payload =? "jpeg")%string
          then
            match views E (p_format payload) shp data with
            | Raise e => (self, [], Raise e)
            | Ok (grayscale_frame, color_frame) =>
                let frame :=
                  mkPreviewFrame (eye_id self) (counter self)
                    (detect_confidence E (detector self) grayscale_frame color_frame)
                    (frame_format self) in
                (self, [(frame, color_frame)], Ok true)
            end
          else
            (self, [],
             Raise (RuntimeWarning
                      ("Image size " ++ str_int (Z.of_nat (List.length data))
                         ++ " does not match expected shape.")))
      end
  else (self, [], Ok false).

End ImageStream.

Module PreviewGenerator.

(** The parameters kept by [PreviewGenerator.__init__]; the two pipe
    ends it also keeps are the channels of [World] below. *)
Record t : Type := mk {
  url : string;
  frame_per_frames : Z;
  folder : string;
  frame_format : Format;
  detector_parameters : settings
}.

(** [PreviewGenerator.__init__], given whether [folder] is a directory. *)
Definition init (is_dir : bool) (url : string) (frame_per_frames : Z)
  (folder : string) (frame_format : Format) (detector_parameters : settings)
  : result t :=
  if negb is_dir
  then Raise (FileNotFoundError ("The given folder '" ++ folder ++ "' does not exists."))
  else Ok (mk url frame_per_frames folder frame_format detector_parameters).

(** A message on the status pipe. *)
Inductive status : Type :=
| Info (text : string)
| Failure (e : exn).

(** What one turn of the loop observes. *)
Inductive turn : Type :=
| Cancel                                     (* [command_pipe.poll()] is true *)
| PollRaises (e : exn)                       (* [command_pipe.poll()] raises *)
| NoData                                     (* [frame_queue.new_data] is false *)
| Frame (topic : string) (payload : Payload) (* [frame_queue.recv()] returns *)
| RecvRaises (e : exn).                      (* the message bus raises *)

(** The surroundings of one worker: for each call that leaves the
    module, [None] when it succeeds or the exception it raises, and the
    turns of the loop observed so far. *)
Record World : Type := mkWorld {
  connecting_send : option exn;
  zmq_context : option exn;
  msg_receiver : option exn;
  starting_send : option exn;
  turns : list turn;
  report_send : option exn
}.

(** How a stretch of code ends: it completes, raises, or the observed
    turns run out while the loop is still polling. *)
Inductive flow : Type :=
| Done
| Raised (e : exn)
| Polling.

(** [streams]: the dictionary from eye id to stream. *)
Definition streams : Type := list (Z * ImageStream.t).

Fixpoint lookup (id : Z) (d : streams) : option ImageStream.t :=
  match d with
  | [] => None
  | (k, v) :: d' => if id =? k then Some v else lookup id d'
  end.

Fixpoint store (id : Z) (v : ImageStream.t) (d : streams) : streams :=
  match d with
  | [] => [(id, v)]
  | (k, v') :: d' => if id =? k then (k, v) :: d' else (k, v') :: store id v d'
  end.

(** The [while] loop. *)
Fixpoint loop (E : Externals) (params : t) (d : streams) (files : list file)
  (ts : list turn) {struct ts} : list file * flow :=
  match ts with
  | [] => (files, Polling)
  | Cancel :: _ => (files, Done)
  | PollRaises e :: _ => (files, Raised e)
  | NoData :: ts' => loop E params d files ts'
  | RecvRaises e :: _ => (files, Raised e)
  | Frame topic payload :: ts' =>
      match py_int (last_segment topic) with
      | Raise e => (files, Raised e)
      | Ok id =>
          let stream :=
            match lookup id d with
            | Some s => s
            | None =>
                ImageStream.init E id (frame_per_frames params) (folder params)
                  (p_width payload, p_height payload) (frame_format params)
                  (detector_parameters params)
            end in
          match ImageStream.add E stream payload with
          | (stream', written, Ok _) =>
              loop E params (store id stream' d) (files ++ written)%list ts'
          | (_, written, Raise e) => ((files ++ written)%list, Raised e)
          end
      end
  end.

(** The statements inside [try]. *)
Definition body (E : Externals) (params : t) (W : World)
  : list status * list file * flow :=
  match connecting_send W with
  | Some e => ([], [], Raised e)
  | None =>
      let log := [Info ("Connecting to URL '" ++ url params ++ "'...")] in
      match zmq_context W with
      | Some e => (log, [], Raised e)
      | None =>
          match msg_receiver W with
          | Some e => (log, [], Raised e)
          | None =>
              match starting_send W with
              | Some e => (log, [], Raised e)
              | None =>
                  let log :=
                    (log ++ [Info ("Starting generating previews and saving them in '"
                                     ++ folder params ++ "'...")])%list in
                  let (files, f) := loop E params [] [] (turns W) in
                  (log, files, f)
              end
          end
      end
  end.

(** How a call of the worker function ends. *)
Inductive ending : Type :=
| Returned
| Uncaught (e : exn)
| Running.

Record run : Type := mkRun {
  statuses : list status;
  written : list file;
  end_ : ending
}.

(** [PreviewGenerator.generate]: the messages delivered on the status
    pipe, the files written and how the call ends. *)
Definition generate (E : Externals) (params : t) (W : World) : run :=
  match body E params W with
  | (log, files, Done) => mkRun log files Returned
  | (log, files, Polling) => mkRun log files Running
  | (log, files, Raised e) =>
      if is_Exception e then
        match report_send W with
        | None => mkRun (log ++ [Failure e])%list files Returned
        | Some e' => mkRun log files (Uncaught e')
        end
      else mkRun log files (Uncaught e)
  end.

End PreviewGenerator.

(* ================================================================== *)
(** * [Preview]: the plugin that supervises the worker *)
(* ================================================================== *)

Module Preview.

Definition NOTIFICATION_PREVIEW_SHOW : string := "preview.show".
Definition NOTIFICATION_PREVIEW_CLOSE : string := "preview.close".

(** The fields of the plugin.  [worker] holds the generator the process
    was started with; the two pipe ends are present or [None];
    [window] is [Some shown] for a [PreviewWindow] object, where [shown]
    is its truth value. *)
Record t : Type := mk {
  command_sender : bool;
  worker : option PreviewGenerator.t;
  status_receiver : bool;
  generator : option PreviewGenerator.t;
  window : option bool;
  frames_per_frame : Z;
  folder : string;
  should_show : bool;
  frame_format : Format
}.

(** [Preview.__init__]. *)
Definition init (frames_per_frame : Z) (folder : string) (should_show : bool)
  (frame_format : Format) : t :=
  mk false None false None None frames_per_frame folder should_show frame_format.

Record Notification : Type := mkNotification {
  subject : string;
  rec_path : string
}.

(** What the host answers during one call. *)
Record Host : Type := mkHost {
  ipc_sub_url : string;
  (** [Path.is_absolute] *)
  is_absolute : string -> bool;
  (** the directories that exist when the call starts *)
  directories : list string;
  (** the entries of a directory *)
  listing : string -> list string;
  (** the result of [_get_detector_parameters] *)
  detector_parameters : settings;
  (** [worker.is_alive()] *)
  is_alive : bool;
  (** whether the worker has an exit code after [join(3)] *)
  exited_after_join : bool
}.

(** What a call does to the outside. *)
Inductive event : Type :=
| Mkdir (path : string)
| Start (target : PreviewGenerator.t)
| SendExit
| Join (timeout : Z)
| LogInfo (text : string)
| LogWarning (text : string)
| NotifyAll (subject : string)
| ShowWindow (frames : list (list PreviewFrame))
| CloseWindow.

(** [a / b] on paths: an absolute [b] replaces [a]. *)
Definition join_path (H : Host) (a b : string) : string :=
  if is_absolute H b then b else a ++ "/" ++ b.

Definition is_dir (dirs : list string) (p : string) : bool :=
  existsb (String.eqb p) dirs.

Definition set_worker (w : option PreviewGenerator.t) (self : t) : t :=
  mk (command_sender self) w (status_receiver self) (generator self) (window self)
     (frames_per_frame self) (folder self) (should_show self) (frame_format self).

Definition set_pipes (b : bool) (self : t) : t :=
  mk b (worker self) b (generator self) (window self)
     (frames_per_frame self) (folder self) (should_show self) (frame_format self).

Definition set_generator (g : option PreviewGenerator.t) (self : t) : t :=
  mk (command_sender self) (worker self) (status_receiver self) g (window self)
     (frames_per_frame self) (folder self) (should_show self) (frame_format self).

Definition set_window (w : option bool) (self : t) : t :=
  mk (command_sender self) (worker self) (status_receiver self) (generator self) w
     (frames_per_frame self) (folder self) (should_show self) (frame_format self).

(** The outcome of a call: the plugin afterwards, what it did, and the
    exception that left the call, if any. *)
Definition outcome : Type := (t * list event * option exn)%type.

(** The branch of [on_notify] for ["recording.started"]. *)
Definition start (H : Host) (self : t) (notification : Notification) : outcome :=
  let path := folder self in
  let relocate := negb (is_absolute H path) || negb (is_dir (directories H) path) in
  let path' := if relocate then join_path H (rec_path notification) path else path in
  if relocate && is_dir (directories H) path' then
    (self, [], Some (FileExistsError path'))
  else
    let made := if relocate then [Mkdir path'] else [] in
    let dirs := if relocate then path' :: directories H else directories H in
    (* [__create_generator]: new pipes, no worker, then the generator *)
    let self := set_worker None (set_pipes true self) in
    match
      PreviewGenerator.init (is_dir dirs path') (ipc_sub_url H) (frames_per_frame self)
        path' (frame_format self) (detector_parameters H)
    with
    | Raise e => (self, made, Some e)
    | Ok g =>
        (set_worker (Some g) (set_generator (Some g) self),
         (made ++ [Start g])%list, None)
    end.

(** The branch for ["recording.stopped"]. *)
Definition stop (H : Host) (self : t) : outcome :=
  if negb (command_sender self) then
    (self, [], Some (AttributeError "'NoneType' object has no attribute 'send'"))
  else if negb (exited_after_join H) then
    (self, [SendExit; Join 3], Some (AssertionError "Joining failed."))
  else
    let stopped := [SendExit; Join 3; LogInfo "Stopping generation of previews."] in
    let rough_frame_pattern := "*." ++ Format_str (frame_format self) in
    match generator self with
    | None =>
        (self, stopped, Some (AttributeError "'NoneType' object has no attribute 'folder'"))
    | Some g =>
        let found := glob rough_frame_pattern (listing H (PreviewGenerator.folder g)) in
        let told :=
          if (List.length found =? 0)%nat then
            [LogWarning "No previews were generated. Was the Frame Publisher activated?!"]
          else if should_show self then [NotifyAll NOTIFICATION_PREVIEW_SHOW]
          else [] in
        (set_worker None (set_pipes false self), (stopped ++ told)%list, None)
    end.

(** [PreviewWindow(...)] followed by [show()]. *)
Definition show (H : Host) (self : t) (g : PreviewGenerator.t) : outcome :=
  match load_all (listing H (PreviewGenerator.folder g)) with
  | Raise e => (set_window (Some false) self, [], Some e)
  | Ok frames =>
      if (List.length frames =? 0)%nat then
        (set_window (Some false) self,
         [LogWarning "No frames where found. Therefore, the preview is not shown."],
         None)
      else (set_window (Some true) self, [ShowWindow frames], None)
  end.

(** [Preview.on_notify]. *)
Definition on_notify (H : Host) (self : t) (notification : Notification) : outcome :=
  let subject := subject notification in
  if (subject =? "recording.started")%string
     && (match worker self with None => true | Some _ => false end)
  then start H self notification
  else if (subject =? "recording.stopped")%string
          && (match worker self with None => false | Some _ => true end)
          && is_alive H
  then stop H self
  else
    match generator self, window self with
    | Some g, None =>
        if (subject =? NOTIFICATION_PREVIEW_SHOW)%string then show H self g
        else (self, [], None)
    | _, Some shown =>
        if (subject =? NOTIFICATION_PREVIEW_CLOSE)%string && shown
        then (set_window None self, [CloseWindow], None)
        else (self, [], None)
    | None, None => (self, [], None)
    end.

End Preview.


(* ================================================================== *)
(** * Runs and well-formed inputs *)
(* ================================================================== *)

(** The outcome of a series of calls of [add] on one stream. *)
Record Feed : Type := mkFeed {
  final : ImageStream.t;
  saved : list file;
  outcomes : list (result bool)
}.

(** One call of [add] per payload, in order.  A call that raises leaves
    the stream usable, so the series goes on after it. *)
Fixpoint feed (E : Externals) (self : ImageStream.t) (ps : list Payload) : Feed :=
  match ps with
  | [] => mkFeed self [] []
  | p :: ps' =>
      match ImageStream.add E self p with
      | (self1, w, r) =>
          let rest := feed E self1 ps' in
          mkFeed (final rest) (w ++ saved rest)%list (r :: outcomes rest)
      end
  end.

Definition frame_nums (fs : list file) : list Z :=
  map (fun f => frame_num (fst f)) fs.




(** A call that samples: the incremented counter is a multiple of the
    interval. *)
Definition triggers (self : ImageStream.t) : Prop :=
  ImageStream.frame_per_frames self <> 0
  /\ (ImageStream.counter self + 1) mod ImageStream.frame_per_frames self = 0.

(** Collaborators to run the model on concrete inputs: every non-empty
    buffer decodes, the conversions keep the image, and the detector
    reports a confidence of one half. *)
Definition plain_externals : Externals :=
  mkExternals
    (fun data => match data with [] => None | _ => Some (mkImage [1; 1; 3] data) end)
    (fun img => img) (fun img => img) []
    (fun _ _ _ => FFinite false 1 (-1)).

(** A stream of eye [eye] sampling every [k]-th frame of size [w] x [h]. *)
Definition fresh_stream (eye k w h : Z) : ImageStream.t :=
  ImageStream.init plain_externals eye k "preview" (w, h) JPEG [].

(** A [gray] payload of [n] zero bytes. *)
Definition gray_payload (w h : Z) (n : nat) : Payload :=
  mkPayload "gray" w h [repeat x00 n].


(** The number of error values among the status messages. *)
Definition failures (log : list PreviewGenerator.status) : nat :=
  List.length
    (filter (fun m => match m with PreviewGenerator.Failure _ => true | _ => false end) log).

(** A worker whose status pipe is broken from the start: the first send
    raises, and so does the send of the handler. *)
Definition broken_pipe_world : PreviewGenerator.World :=
  PreviewGenerator.mkWorld (Some BrokenPipeError) None None None [] (Some BrokenPipeError).

(** A worker interrupted while it connects. *)
Definition interrupted_world : PreviewGenerator.World :=
  PreviewGenerator.mkWorld None (Some KeyboardInterrupt) None None [] None.

(** A worker whose connection to the message bus fails. *)
Definition refused_world : PreviewGenerator.World :=
  PreviewGenerator.mkWorld None None (Some ZMQError) None [] None.

Definition some_params : PreviewGenerator.t :=
  PreviewGenerator.mk "tcp://127.0.0.1:50020" 3 "preview" JPEG [].

(** A plugin whose worker was started and has not been stopped. *)
Definition running_plugin : Preview.t :=
  Preview.mk true (Some some_params) true (Some some_params) None 3 "preview" true JPEG.

Definition some_host : Preview.Host :=
  Preview.mkHost "tcp://127.0.0.1:50020" (fun _ => false) [] (fun _ => []) [] true true.

Definition recording_started : Preview.Notification :=
  Preview.mkNotification "recording.started" "/recordings/001".

(* ------------------------------------------------------------------ *)
(** ** The loader, step by step *)

(** The frames the loop of [load_all] constructs from a listing, in
    order, or the first exception a constructor call raises. *)
Fixpoint decode_all (names : list string) : result (list PreviewFrame) :=
  match names with
  | [] => Ok []
  | name :: rest =>
      match decode_name name with
      | None => decode_all rest
      | Some (Raise e) => Raise e
      | Some (Ok f) => fs <- decode_all rest ;; Ok (f :: fs)
      end
  end.

(** Filing frames one after the other under their eye id. *)
Definition group_frames (fs : list PreviewFrame) (c : collections) : collections :=
  fold_left (fun acc f => append_to (eye_id f) f acc) fs c.

(** The frames of eye [k], in their order of arrival. *)
Definition records_of (k : Z) (fs : list PreviewFrame) : list PreviewFrame :=
  filter (fun f => eye_id f =? k) fs.

(** The length of the shortest list ([0] when there is none). *)
Definition shortest {A : Type} (ls : list (list A)) : nat :=
  match ls with
  | [] => 0%nat
  | l :: ls' => fold_right Nat.min (List.length l) (map (@List.length A) ls')
  end.

(** The smallest of [n] and the lengths of the lists. *)
Definition min_length {A : Type} (n : nat) (ls : list (list A)) : nat :=
  fold_right Nat.min n (map (@List.length A) ls).

(** The invariant of the loop: after the frames [fs], the dictionary has
    one entry per eye id seen, holding the frames of that eye in order. *)
Definition keyed_by (fs : list PreviewFrame) (c : collections) : Prop :=
  NoDup (map fst c)
  /\ (forall k, In k (map fst c) <-> exists f, In f fs /\ eye_id f = k)
  /\ Forall (fun kv => snd kv = records_of (fst kv) fs) c.

Definition le_frame_num (f g : PreviewFrame) : Prop := frame_num f <= frame_num g.

(** What [load_all] returns for the frames [fs] decoded from [listing]:
    one group per eye id that occurs, each group being the frames of that eye
    sorted by frame number, and the groups zipped position by position up to
    the length of the shortest. *)
Definition aligned (listing : list string) (fs : list PreviewFrame) : Prop :=
  exists ids,
    NoDup ids
    /\ (forall k, In k ids <-> exists f, In f fs /\ eye_id f = k)
    /\ let groups := map (fun k => sort_frames (records_of k fs)) ids in
       load_all listing = Ok (zip_star groups)
       /\ List.length (zip_star groups) = shortest groups
       /\ (forall i t, nth_error (zip_star groups) i = Some t ->
                       Forall2 (fun g x => nth_error g i = Some x) groups t)
       /\ Forall (StronglySorted le_frame_num) groups
       /\ Forall (fun k => Permutation (records_of k fs) (sort_frames (records_of k fs))) ids.

(** A folder with five frames of eye 0 and three of eye 1, and a file
    that is not a frame. *)
Definition five_and_three : list string :=
  ["eye0_frame30_confidence0.9100.jpg"; "eye1_frame20_confidence0.7000.jpg";
   "eye0_frame10_confidence0.8000.jpg"; "eye0_frame50_confidence0.9900.jpg";
   "notes.txt";
   "eye1_frame60_confidence0.6000.jpg"; "eye0_frame20_confidence0.8500.jpg";
   "eye1_frame40_confidence0.6500.jpg"; "eye0_frame40_confidence0.9500.jpg"].

(** Whether the loop of [load_all] builds a frame from the name or raises
    on it (as opposed to never seeing it or skipping it). *)
Definition is_candidate (name : string) : bool :=
  match decode_name name with
  | Some _ => true
  | None => false
  end.

(** What [load_all] does with the names that are not frames of the
    encoder: those the glob pattern or the extractor rejects are skipped,
    and the scan completes unless a name the extractor accepts has a field
    that does not convert, in which case the first such name ends the scan
    with its [ValueError]. *)
Definition skips_or_aborts (listing : list string) : Prop :=
  load_all listing = load_all (filter is_candidate listing)
  /\ ((forall n e, In n listing -> decode_name n <> Some (Raise e)) ->
      exists ps, load_all listing = Ok ps)
  /\ (forall pre n post e,
         listing = (pre ++ n :: post)%list ->
         (forall m e', In m pre -> decode_name m <> Some (Raise e')) ->
         decode_name n = Some (Raise e) ->
         load_all listing = Raise e /\ exists msg, e = ValueError msg).

(** A folder with a frame of an unknown image format before a regular
    frame. *)
Definition gif_then_jpg : list string :=
  ["eye0_frame1_confidence0.5000.gif"; "eye0_frame2_confidence0.5000.jpg"].

(* ------------------------------------------------------------------ *)
(** ** What the extractor accepts *)

(** The strings an expression matches, read off the expression: [s] is
    matched from captures [cs] to captures [cs']. *)
Fixpoint matches (r : regex) (s : string) (cs cs' : captures) : Prop :=
  match r with
  | Eps => s = "" /\ cs' = cs
  | Chr c => s = String c "" /\ cs' = cs
  | AnyChar => exists c, s = String c "" /\ c <> newline /\ cs' = cs
  | Range lo hi => exists c, s = String c "" /\ in_range lo hi c = true /\ cs' = cs
  | Seq r1 r2 =>
      exists s1 s2 cs1, s = s1 ++ s2 /\ matches r1 s1 cs cs1 /\ matches r2 s2 cs1 cs'
  | Alt r1 r2 => matches r1 s cs cs' \/ matches r2 s cs cs'
  | Opt r1 => matches r1 s cs cs' \/ (s = "" /\ cs' = cs)
  | PlusRange lo hi => s <> "" /\ all_chars (in_range lo hi) s = true /\ cs' = cs
  | Group i r1 => exists cs1, matches r1 s cs cs1 /\ cs' = (i, s) :: cs1
  end.

(** The texts a capture group of the extractor can hold: digits, digits
    with a fractional part, or a lower-case word. *)
Definition is_token (g : string) : Prop :=
  is_digits g = true
  \/ (exists i f, g = i ++ "." ++ f /\ is_digits i = true /\ is_digits f = true)
  \/ is_word g = true.

(** The names from which the loop of [load_all] builds the frame [f]:
    the literal parts of the template around two runs of digits (leading
    zeros allowed), a token that [float] converts, one character that is not
    a newline, and the extension of the format. *)
Definition template_shape (name : string) (f : PreviewFrame) : Prop :=
  exists g1 g2 g3 c,
    name = "eye" ++ g1 ++ "_frame" ++ g2 ++ "_confidence" ++ g3
             ++ String c (Format_str (format f))
    /\ is_digits g1 = true /\ eye_id f = digits_value g1
    /\ is_digits g2 = true /\ frame_num f = digits_value g2
    /\ is_token g3 /\ py_float g3 = Ok (confidence f)
    /\ c <> newline.

(** A name with leading zeros in the eye id and a confidence with one
    decimal. *)
Definition zero_padded_name : string := "eye007_frame1_confidence0.5.jpg".

(** A name with another character where the template has the dot before
    the extension. *)
Definition no_dot_name : string := "eye0_frame1_confidence0.5000Xjpg".

(* ------------------------------------------------------------------ *)
(** ** Writing and reading back one frame *)

(** Whether [n] units of [10^-4], printed with four decimals and read
    back by [float], print as the same text again. *)
Definition reads_back (n : Z) : bool :=
  match py_float (fixed4 n) with
  | Ok x => (format_05_4f x =? fixed4 n)%string
  | Raise _ => false
  end.

(** An input either ends or goes on with a character outside a range. *)
Definition stops_at (lo hi : ascii) (tail : string) : Prop :=
  match tail with
  | EmptyString => True
  | String c _ => in_range lo hi c = false
  end.

(** A frame as the sampling code writes it. *)
Definition sample_frame : PreviewFrame :=
  mkPreviewFrame 7 3 (FFinite false 8899112863684100 (-56)) JPEG.

(* ================================================================== *)
(** * The remaining operations *)
(* ================================================================== *)

(** [ImageStream.__bool__]. *)
Definition ImageStream_bool (self : ImageStream.t) : bool :=
  0 <? ImageStream.counter self.

(** [s.rfind(".")]: the index of the last dot, if there is one. *)
Fixpoint rfind_dot (s : string) : option nat :=
  match s with
  | EmptyString => None
  | String c s' =>
      match rfind_dot s' with
      | Some i => Some (S i)
      | None => if Ascii.eqb c "." then Some 0%nat else None
      end
  end.

(** [s[n:]]. *)
Fixpoint drop (n : nat) (s : string) : string :=
  match n, s with
  | O, _ => s
  | S n', String _ s' => drop n' s'
  | S _, EmptyString => EmptyString
  end.

(** [path.suffix], where [name] is the final component of the path: the
    text from the last dot on, provided that dot is neither the first nor
    the last character of the name, and the empty string otherwise. *)
Definition suffix (name : string) : string :=
  match rfind_dot name with
  | Some i =>
      if (0 <? i)%nat && (i <? String.length name - 1)%nat then drop i name else ""
  | None => ""
  end.

(** [Format.from_path]. *)
Definition from_path (name : string) : result Format :=
  from_extension (drop 1 (suffix name)).

(** The names of the files a series of [save] calls writes into the
    folder. *)
Definition names (fs : list file) : list string :=
  map (fun f => PreviewFrame_str (fst f)) fs.

(** A stream with a sampling interval of zero, and payloads for it. *)
Definition stalled_stream : ImageStream.t :=
  ImageStream.init plain_externals 0 0 "preview" (2, 2) JPEG [].

(* ------------------------------------------------------------------ *)
(** ** One worker, several eyes *)






(** The invariant of the loop: every stream is stored under its own eye
    id, every file written so far belongs to a stored stream and is numbered
    at most with that stream's counter, and no two files written so far
    agree on eye id and frame number. *)
Definition numbered_below (d : PreviewGenerator.streams) (files : list file) : Prop :=
  (forall id s, PreviewGenerator.lookup id d = Some s -> ImageStream.eye_id s = id)
  /\ (forall f, In f files ->
        exists s, PreviewGenerator.lookup (eye_id (fst f)) d = Some s
                  /\ frame_num (fst f) <= ImageStream.counter s)
  /\ NoDup (map (fun f => (eye_id (fst f), frame_num (fst f))) files).

(** The same surroundings with other turns of the loop. *)
Definition with_turns (W : PreviewGenerator.World) (ts : list PreviewGenerator.turn)
  : PreviewGenerator.World :=
  PreviewGenerator.mkWorld (PreviewGenerator.connecting_send W)
    (PreviewGenerator.zmq_context W) (PreviewGenerator.msg_receiver W)
    (PreviewGenerator.starting_send W) ts (PreviewGenerator.report_send W).


Definition ready_world (ts : list PreviewGenerator.turn) : PreviewGenerator.World :=
  PreviewGenerator.mkWorld None None None None ts None.

Definition every_second : PreviewGenerator.t :=
  PreviewGenerator.mk "tcp://127.0.0.1:50020" 2 "preview" JPEG [].

(* ------------------------------------------------------------------ *)
(** ** The plugin between notifications *)

(** What the status pipe holds when [recent_events] looks at it. *)
Inductive pending : Type :=
| Silent                                    (* [poll()] is false *)
| PollFails (e : exn)                       (* [poll()] raises *)
| Received (m : PreviewGenerator.status)    (* [recv()] returns *)
| RecvFails (e : exn).                      (* [recv()] raises *)

(** [Preview.recent_events].  An exception raised inside [try] leaves
    the call unless it is a [BrokenPipeError], which disconnects both
    pipes.  An object outside [Exception], which the worker never sends,
    would be logged like a text; such objects carry no message here. *)
Definition recent_events (self : Preview.t) (p : pending) : Preview.outcome :=
  if negb (Preview.status_receiver self) then (self, [], None)
  else
    let raised (e : exn) : Preview.outcome :=
      match e with
      | BrokenPipeError => (Preview.set_pipes false self, [], None)
      | _ => (self, [], Some e)
      end in
    match p with
    | Silent => (self, [], None)
    | PollFails e => raised e
    | RecvFails e => raised e
    | Received (PreviewGenerator.Info text) => (self, [Preview.LogInfo text], None)
    | Received (PreviewGenerator.Failure e) =>
        if is_Exception e then raised e else (self, [Preview.LogInfo ""], None)
    end.

(** A series of notifications delivered to the same plugin, each with
    the answers of the host at that time: the plugin afterwards and
    everything it did.  The series goes on after a call that raises. *)
Fixpoint notify_each (self : Preview.t) (calls : list (Preview.Host * Preview.Notification))
  : Preview.t * list Preview.event :=
  match calls with
  | [] => (self, [])
  | (H, n) :: rest =>
      match Preview.on_notify H self n with
      | (self1, done, _) =>
          let (self2, later) := notify_each self1 rest in
          (self2, (done ++ later)%list)
      end
  end.

(** Whether an event opens or closes the preview window. *)
Definition touches_window (ev : Preview.event) : bool :=
  match ev with
  | Preview.ShowWindow _ | Preview.CloseWindow => true
  | _ => false
  end.

Definition recording_stopped : Preview.Notification :=
  Preview.mkNotification "recording.stopped" "/recordings/001".

Definition preview_show : Preview.Notification :=
  Preview.mkNotification "preview.show" "".

Definition preview_close : Preview.Notification :=
  Preview.mkNotification "preview.close" "".

(** A host whose folders hold the given entries. *)
Definition host_listing (entries : list string) : Preview.Host :=
  Preview.mkHost "tcp://127.0.0.1:50020" (fun _ => false) [] (fun _ => entries) [] true true.

(** A host on which the worker process is no longer alive. *)
Definition host_after_crash : Preview.Host :=
  Preview.mkHost "tcp://127.0.0.1:50020" (fun _ => false) [] (fun _ => []) [] false true.

(** A plugin that has stopped its worker and not shown a preview yet. *)
Definition stopped_plugin : Preview.t :=
  Preview.mk false None false (Some some_params) None 3 "preview" true JPEG.

(* ------------------------------------------------------------------ *)
(** ** [PreviewWindow]: browsing the frames *)

(** The key and action codes of GLFW that the window uses. *)
Definition GLFW_RELEASE : Z := 0.
Definition GLFW_PRESS : Z := 1.
Definition GLFW_KEY_RIGHT : Z := 262.
Definition GLFW_KEY_LEFT : Z := 263.

(** The callback [on_key] of [PreviewWindow.show]: the new value of
    [frame_index] and the index given to [_draw_frame], if it is called. *)
Definition on_key (frames : list (list PreviewFrame)) (frame_index key action : Z)
  : Z * option Z :=
  if action =? GLFW_RELEASE then (frame_index, None)
  else if (key =? GLFW_KEY_LEFT) && (0 <? frame_index)
  then (frame_index - 1, Some (frame_index - 1))
  else if (key =? GLFW_KEY_RIGHT) && (frame_index <? Z.of_nat (List.length frames) - 1)
  then (frame_index + 1, Some (frame_index + 1))
  else (frame_index, None).

(** A series of key events [(key, action)] on one window: the final
    [frame_index] and the indexes drawn, in order. *)
Fixpoint key_events (frames : list (list PreviewFrame)) (frame_index : Z)
  (keys : list (Z * Z)) : Z * list Z :=
  match keys with
  | [] => (frame_index, [])
  | (key, action) :: rest =>
      let (i, drawn) := on_key frames frame_index key action in
      let (j, later) := key_events frames i rest in
      (j, (match drawn with Some d => [d] | None => [] end ++ later)%list)
  end.

(** [frames[index]] on a tuple: a negative index counts from the end. *)
Definition tuple_item {A : Type} (l : list A) (index : Z) : result A :=
  let n := Z.of_nat (List.length l) in
  let i := if index <? 0 then n + index else index in
  if (0 <=? i) && (i <? n) then
    match nth_error l (Z.to_nat i) with
    | Some x => Ok x
    | None => Raise IndexError
    end
  else Raise IndexError.

(** The captions [_draw_frame] writes on the images of [frames[index]]. *)
Definition captions (frames : list (list PreviewFrame)) (index : Z) : result (list string) :=
  t <- tuple_item frames index ;;
  Ok (map (fun frame_meta =>
             "Preview " ++ str_int (index + 1) ++ "/"
               ++ str_int (Z.of_nat (List.length frames))
               ++ " (eye" ++ str_int (eye_id frame_meta) ++ ")") t).

(* ------------------------------------------------------------------ *)
(** ** The settings of the plugin *)








(* ------------------------------------------------------------------ *)
(** ** The messages of a run *)

(** The two texts the worker sends before it enters the loop. *)
Definition announcements (params : PreviewGenerator.t) : list PreviewGenerator.status :=
  [PreviewGenerator.Info ("Connecting to URL '" ++ PreviewGenerator.url params ++ "'...");
   PreviewGenerator.Info ("Starting generating previews and saving them in '"
                            ++ PreviewGenerator.folder params ++ "'...")].


(* ------------------------------------------------------------------ *)
(** ** Frames the loader does not see *)

(** Whether a float prints with a minus sign. *)
Definition sign_bit (x : pyfloat) : bool :=
  match x with
  | FNaN => false
  | FInf neg => neg
  | FFinite neg _ _ => neg
  end.
(* ================================================================== *)
(** * Properties of [ImageStream.add] *)
(* ================================================================== *)




Lemma tick_counter (self : ImageStream.t) :
  ImageStream.counter (ImageStream.tick self) = ImageStream.counter self + 1.
Proof. reflexivity. Qed.








(** C5.  A sampling call whose payload format is none of [gray], [bgr]
    and [jpeg] raises [NotImplementedError] naming the format, and the call
    saves no file. *)
Theorem unsupported_format_fails (E : Externals) (self : ImageStream.t) (p : Payload) :
  triggers self ->
  p_format p <> "gray" -> p_format p <> "bgr" -> p_format p <> "jpeg" ->
  ImageStream.add E self p
  = (ImageStream.tick self, [],
     Raise (NotImplementedError
              ("The eye frame format '" ++ p_format p
                 ++ "' is currently not supported!"))).
Proof.
  intros [HK Hm] Hg Hb Hj. unfold ImageStream.add.
  cbn [ImageStream.tick ImageStream.frame_per_frames ImageStream.counter].
  destruct (Z.eqb_spec (ImageStream.frame_per_frames self) 0); [contradiction|].
  rewrite Hm. cbn [Z.eqb]. unfold ImageStream.supported. cbn [existsb].
  destruct (String.eqb_spec (p_format p) "gray"); [contradiction|].
  destruct (String.eqb_spec (p_format p) "bgr"); [contradiction|].
  destruct (String.eqb_spec (p_format p) "jpeg"); [contradiction|].
  reflexivity.
Qed.

Lemma unsupported_format_fails_witness :
  ImageStream.add plain_externals (fresh_stream 0 1 2 2) (mkPayload "yuv" 2 2 [repeat x00 4])
  = (ImageStream.tick (fresh_stream 0 1 2 2), [],
     Raise (NotImplementedError "The eye frame format 'yuv' is currently not supported!")).
Proof.
  apply (@unsupported_format_fails plain_externals (fresh_stream 0 1 2 2)
           (mkPayload "yuv" 2 2 [repeat x00 4])).
  - split; cbn; [lia|reflexivity].
  - cbn; discriminate.
  - cbn; discriminate.
  - cbn; discriminate.
Defined.



Lemma feed_increasing (E : Externals) (ps : list Payload) :
  forall self,
    StronglySorted Z.lt (frame_nums (saved (feed E self ps)))
    /\ Forall (fun n => ImageStream.counter self < n) (frame_nums (saved (feed E self ps))).
Proof.
  induction ps as [|p ps IH]; intros self.
  - cbn. split; constructor.
  - destruct (IH (ImageStream.tick self)) as (IHs & IHb).
    rewrite tick_counter in IHb.
    assert (Hadd : exists w r,
               ImageStream.add E self p = (ImageStream.tick self, w, r)
               /\ (w = [] \/ exists f img, w = [(f, img)]
                                           /\ frame_num f = ImageStream.counter self + 1)).
    { unfold ImageStream.add.
      cbn [ImageStream.tick ImageStream.frame_per_frames ImageStream.counter
           ImageStream.eye_id ImageStream.frame_format ImageStream.detector].
      repeat match goal with
             | |- context [if ?b then _ else _] => destruct b
             | |- context [match ?x with Some _ => _ | None => _ end] => destruct x
             | |- context [match ?x with Ok _ => _ | Raise _ => _ end] => destruct x
             | |- context [let (_, _) := ?x in _] => destruct x
             end;
        eexists _, _; (split; [reflexivity|]);
        (now left) || (right; eexists _, _; split; reflexivity). }
    destruct Hadd as (w & r & Ha & Hw).
    cbn [feed]. rewrite Ha. cbn [saved].
    destruct Hw as [-> | (f & img & -> & Hf)]; cbn [app frame_nums map fst].
    + split; [exact IHs|].
      eapply Forall_impl; [|exact IHb]. cbn. intros; lia.
    + fold (frame_nums (saved (feed E (ImageStream.tick self) ps))).
      rewrite Hf. split.
      * constructor; [exact IHs | exact IHb].
      * constructor; [lia|].
        eapply Forall_impl; [|exact IHb]. cbn. intros; lia.
Qed.

(** C9.  Whatever payloads one stream receives, and whether or not some
    of the calls raise, the frames it saves carry strictly increasing frame
    numbers: each is greater than all the numbers saved before it (and than
    the counter the series started from). *)
Theorem frame_numbers_increase (E : Externals) (self : ImageStream.t)
  (ps : list Payload) :
  let nums := frame_nums (saved (feed E self ps)) in
  StronglySorted Z.lt nums
  /\ Forall (fun n => ImageStream.counter self < n) nums.
Proof. intros nums. apply feed_increasing. Qed.

(* ================================================================== *)
(** * Properties of the worker and of its supervisor *)
(* ================================================================== *)

(** The statements inside [try] deliver informational messages only. *)
Lemma body_statuses (E : Externals) (params : PreviewGenerator.t)
  (W : PreviewGenerator.World) :
  Forall (fun m => exists text, m = PreviewGenerator.Info text)
    (fst (fst (PreviewGenerator.body E params W))).
Proof.
  unfold PreviewGenerator.body.
  destruct (PreviewGenerator.connecting_send W); [constructor|].
  destruct (PreviewGenerator.zmq_context W); [repeat constructor; eexists; reflexivity|].
  destruct (PreviewGenerator.msg_receiver W); [repeat constructor; eexists; reflexivity|].
  destruct (PreviewGenerator.starting_send W); [repeat constructor; eexists; reflexivity|].
  destruct (PreviewGenerator.loop E params [] [] (PreviewGenerator.turns W)).
  cbn. repeat constructor; eexists; reflexivity.
Qed.

Lemma failures_infos (log : list PreviewGenerator.status) :
  Forall (fun m => exists text, m = PreviewGenerator.Info text) log -> failures log = 0%nat.
Proof.
  unfold failures. induction 1 as [|m l [text ->] _ IH]; [reflexivity|exact IH].
Qed.

(** C10, as stated, fails: with a broken status pipe the first statement
    of the worker raises [BrokenPipeError] inside [try]; the handler's own
    send raises again, nothing is delivered, and the exception leaves the
    worker function. *)
Lemma report_can_escape :
  snd (PreviewGenerator.body plain_externals some_params broken_pipe_world)
  = PreviewGenerator.Raised BrokenPipeError
  /\ is_Exception BrokenPipeError = true
  /\ PreviewGenerator.statuses
       (PreviewGenerator.generate plain_externals some_params broken_pipe_world) = []
  /\ PreviewGenerator.end_
       (PreviewGenerator.generate plain_externals some_params broken_pipe_world)
     = PreviewGenerator.Uncaught BrokenPipeError.
Proof. repeat split. Qed.

(** An exception outside the [Exception] hierarchy is not captured
    either. *)
Lemma interrupt_escapes :
  PreviewGenerator.generate plain_externals some_params interrupted_world
  = PreviewGenerator.mkRun
      [PreviewGenerator.Info "Connecting to URL 'tcp://127.0.0.1:50020'..."] []
      (PreviewGenerator.Uncaught KeyboardInterrupt).
Proof. reflexivity. Qed.

(** C10, amended.  The capture covers all of the worker body, connection
    setup included: whenever a statement of the body raises an exception
    [e] that derives from [Exception], and the send that reports it
    succeeds, [e] is delivered on the status pipe after the messages sent
    so far, it is the only error value delivered, and the worker function
    returns normally. *)
Theorem worker_reports_exception (E : Externals) (params : PreviewGenerator.t)
  (W : PreviewGenerator.World) (e : exn) :
  snd (PreviewGenerator.body E params W) = PreviewGenerator.Raised e ->
  is_Exception e = true ->
  PreviewGenerator.report_send W = None ->
  let r := PreviewGenerator.generate E params W in
  PreviewGenerator.statuses r
  = (fst (fst (PreviewGenerator.body E params W)) ++ [PreviewGenerator.Failure e])%list
  /\ failures (PreviewGenerator.statuses r) = 1%nat
  /\ PreviewGenerator.written r = snd (fst (PreviewGenerator.body E params W))
  /\ PreviewGenerator.end_ r = PreviewGenerator.Returned.
Proof.
  intros Hb He Hs r. subst r. unfold PreviewGenerator.generate.
  pose proof (body_statuses E params W) as Hinfo.
  destruct (PreviewGenerator.body E params W) as [[log files] f].
  cbn [fst snd] in *. subst f. rewrite He, Hs.
  cbn [PreviewGenerator.statuses PreviewGenerator.written PreviewGenerator.end_].
  repeat split.
  unfold failures. rewrite filter_app, length_app.
  fold (failures log). rewrite (failures_infos Hinfo). reflexivity.
Qed.

Lemma worker_reports_exception_witness :
  let r := PreviewGenerator.generate plain_externals some_params refused_world in
  PreviewGenerator.statuses r
  = [PreviewGenerator.Info "Connecting to URL 'tcp://127.0.0.1:50020'...";
     PreviewGenerator.Failure ZMQError]
  /\ failures (PreviewGenerator.statuses r) = 1%nat
  /\ PreviewGenerator.written r = []
  /\ PreviewGenerator.end_ r = PreviewGenerator.Returned.
Proof.
  exact (@worker_reports_exception plain_externals some_params refused_world ZMQError
           eq_refl eq_refl eq_refl).
Defined.

(** C7, as stated, fails: a second ["recording.started"] while a worker
    is present raises nothing. *)
Lemma second_start_raises_nothing :
  Preview.worker running_plugin <> None
  /\ snd (Preview.on_notify some_host running_plugin recording_started) = None.
Proof. split; [discriminate|reflexivity]. Qed.

(** C7, amended.  While a worker is present, a ["recording.started"]
    notification is ignored: no exception leaves the call, no process is
    started (the call does nothing to the outside at all), and the plugin is
    left as it was. *)
Theorem second_start_ignored (H : Preview.Host) (self : Preview.t)
  (n : Preview.Notification) :
  Preview.subject n = "recording.started" ->
  Preview.worker self <> None ->
  Preview.on_notify H self n = (self, [], None).
Proof.
  intros Hs Hw. unfold Preview.on_notify. rewrite Hs.
  destruct (Preview.worker self) as [g|]; [|congruence].
  cbn [String.eqb Ascii.eqb Bool.eqb andb].
  destruct (Preview.generator self), (Preview.window self) as [[|]|]; reflexivity.
Qed.

Lemma second_start_ignored_witness :
  Preview.on_notify some_host running_plugin recording_started = (running_plugin, [], None).
Proof.
  apply (@second_start_ignored some_host running_plugin recording_started).
  - reflexivity.
  - discriminate.
Defined.

(** For comparison, the first ["recording.started"] starts one worker. *)
Example first_start_spawns :
  Preview.on_notify some_host (Preview.init 3 "preview" true JPEG) recording_started
  = (Preview.mk true
       (Some (PreviewGenerator.mk "tcp://127.0.0.1:50020" 3 "/recordings/001/preview" JPEG []))
       true
       (Some (PreviewGenerator.mk "tcp://127.0.0.1:50020" 3 "/recordings/001/preview" JPEG []))
       None 3 "preview" true JPEG,
     [Preview.Mkdir "/recordings/001/preview";
      Preview.Start
        (PreviewGenerator.mk "tcp://127.0.0.1:50020" 3 "/recordings/001/preview" JPEG [])],
     None).
Proof. reflexivity. Qed.

(* ================================================================== *)
(** * Properties of the loader *)
(* ================================================================== *)

(** ** Zipping *)

Lemma heads_spec {A : Type} (ls : list (list A)) (t : list A) :
  heads ls = Some t -> Forall2 (fun l x => nth_error l 0 = Some x) ls t.
Proof.
  revert t. induction ls as [|l ls IH]; intros t H; cbn in H.
  - injection H as <-. constructor.
  - destruct l as [|x l]; [discriminate|].
    destruct (heads ls) as [t'|]; [|discriminate].
    injection H as <-. constructor; [reflexivity|auto].
Qed.

Lemma heads_none {A : Type} (ls : list (list A)) :
  heads ls = None -> In [] ls.
Proof.
  induction ls as [|l ls IH]; cbn; [discriminate|].
  destruct l; [now left|].
  destruct (heads ls); [discriminate|]. intros _. right. now apply IH.
Qed.

Lemma heads_some {A : Type} (ls : list (list A)) (t : list A) :
  heads ls = Some t -> Forall (fun l => l <> []) ls.
Proof.
  revert t. induction ls as [|l ls IH]; intros t H; cbn in H; [constructor|].
  destruct l; [discriminate|].
  destruct (heads ls) eqn:Hh; [|discriminate].
  constructor; [discriminate|eauto].
Qed.

Lemma min_length_le {A : Type} (n : nat) (ls : list (list A)) :
  (min_length n ls <= n)%nat.
Proof. unfold min_length. induction ls; cbn; lia. Qed.

Lemma min_length_empty {A : Type} (n : nat) (ls : list (list A)) :
  In [] ls -> min_length n ls = 0%nat.
Proof.
  unfold min_length. induction ls as [|l ls IH]; cbn; [tauto|].
  intros [-> | H]; [reflexivity|]. rewrite (IH H). lia.
Qed.

Lemma min_length_tl {A : Type} (n : nat) (ls : list (list A)) :
  Forall (fun l => l <> []) ls ->
  min_length (S n) ls = S (min_length n (map (@tl A) ls)).
Proof.
  unfold min_length. induction 1 as [|l ls Hl _ IH]; cbn; [reflexivity|].
  rewrite IH. destruct l; [contradiction|]. cbn. lia.
Qed.

Lemma zip_upto_length {A : Type} (n : nat) (ls : list (list A)) :
  List.length (zip_upto n ls) = min_length n ls.
Proof.
  revert ls. induction n as [|n IH]; intros ls; cbn.
  - pose proof (min_length_le 0 ls). lia.
  - destruct (heads ls) as [t|] eqn:H.
    + cbn. rewrite IH. symmetry. apply min_length_tl. eapply heads_some; eassumption.
    + symmetry. apply min_length_empty. now apply heads_none.
Qed.

Lemma nth_error_tl {A : Type} (l : list A) (i : nat) (x : A) :
  nth_error (tl l) i = Some x -> nth_error l (S i) = Some x.
Proof. destruct l; cbn; [destruct i; discriminate|auto]. Qed.

Lemma zip_upto_nth {A : Type} (n : nat) :
  forall (ls : list (list A)) (i : nat) (t : list A),
    nth_error (zip_upto n ls) i = Some t ->
    Forall2 (fun l x => nth_error l i = Some x) ls t.
Proof.
  induction n as [|n IH]; intros ls i t H; cbn in H.
  - destruct i; discriminate.
  - destruct (heads ls) as [t0|] eqn:Hh; [|destruct i; discriminate].
    destruct i as [|i]; cbn in H.
    + injection H as <-. now apply heads_spec.
    + apply IH in H. clear -H.
      remember (map (@tl A) ls) as ls' eqn:E. revert ls E.
      induction H as [|l' x ls' t Hx _ IHF]; intros ls E.
      * destruct ls; [constructor|discriminate].
      * destruct ls as [|l ls]; [discriminate|]. injection E as -> ->.
        constructor; [now apply nth_error_tl|now apply IHF].
Qed.

Lemma zip_star_length {A : Type} (ls : list (list A)) :
  List.length (zip_star ls) = shortest ls.
Proof.
  destruct ls as [|l ls]; [reflexivity|].
  unfold zip_star, shortest. rewrite zip_upto_length.
  unfold min_length. cbn [map fold_right].
  pose proof (min_length_le (List.length l) ls) as H. unfold min_length in H. lia.
Qed.

Lemma zip_star_nth {A : Type} (ls : list (list A)) (i : nat) (t : list A) :
  nth_error (zip_star ls) i = Some t ->
  Forall2 (fun l x => nth_error l i = Some x) ls t.
Proof.
  destruct ls as [|l ls]; cbn [zip_star].
  - destruct i; discriminate.
  - apply zip_upto_nth.
Qed.

(** ** Sorting *)

Lemma insert_frame_perm (f : PreviewFrame) (l : list PreviewFrame) :
  Permutation (f :: l) (insert_frame f l).
Proof.
  induction l as [|g l IH]; cbn; [reflexivity|].
  destruct (frame_num f <=? frame_num g); [reflexivity|].
  rewrite perm_swap. now constructor.
Qed.

Lemma sort_frames_perm (l : list PreviewFrame) : Permutation l (sort_frames l).
Proof.
  induction l as [|f l IH]; cbn; [constructor|].
  rewrite <- insert_frame_perm. now constructor.
Qed.

Lemma insert_frame_sorted (f : PreviewFrame) (l : list PreviewFrame) :
  Sorted le_frame_num l -> Sorted le_frame_num (insert_frame f l).
Proof.
  induction 1 as [|g l Hs IH Hh]; cbn.
  - repeat constructor.
  - destruct (Z.leb_spec (frame_num f) (frame_num g)) as [Hle|Hgt].
    + constructor; [now constructor|]. constructor. exact Hle.
    + constructor; [exact IH|].
      destruct l as [|g' l]; cbn.
      * constructor. unfold le_frame_num. lia.
      * inversion Hh; subst.
        destruct (frame_num f <=? frame_num g'); constructor;
          unfold le_frame_num in *; lia.
Qed.

Lemma sort_frames_sorted (l : list PreviewFrame) :
  StronglySorted le_frame_num (sort_frames l).
Proof.
  apply Sorted_StronglySorted.
  - intros a b c. unfold le_frame_num. lia.
  - induction l as [|f l IH]; cbn; [constructor|now apply insert_frame_sorted].
Qed.

(** ** Grouping *)

Lemma records_of_app (k : Z) (fs gs : list PreviewFrame) :
  records_of k (fs ++ gs) = (records_of k fs ++ records_of k gs)%list.
Proof. apply filter_app. Qed.

Lemma records_of_none (k : Z) (fs : list PreviewFrame) :
  (forall f, In f fs -> eye_id f <> k) -> records_of k fs = [].
Proof.
  induction fs as [|f fs IH]; intros H; cbn; [reflexivity|].
  destruct (Z.eqb_spec (eye_id f) k) as [e|_].
  - exfalso. apply (H f); [now left|exact e].
  - apply IH. intros g Hg. apply H. now right.
Qed.

Lemma append_to_keys (k : Z) (f : PreviewFrame) (c : collections) :
  map fst (append_to k f c)
  = if existsb (Z.eqb k) (map fst c) then map fst c else (map fst c ++ [k])%list.
Proof.
  induction c as [|[k' l] c IH]; cbn; [reflexivity|].
  destruct (Z.eqb_spec k k') as [->|n]; cbn; [reflexivity|].
  rewrite IH. destruct (existsb (Z.eqb k) (map fst c)); reflexivity.
Qed.

Lemma existsb_eqb_In (k : Z) (l : list Z) : existsb (Z.eqb k) l = true <-> In k l.
Proof.
  rewrite existsb_exists. split.
  - intros (x & Hx & e). apply Z.eqb_eq in e. now subst.
  - intros H. exists k. split; [exact H|apply Z.eqb_refl].
Qed.

Lemma append_to_entries (k : Z) (f : PreviewFrame) (fs : list PreviewFrame) :
  eye_id f = k ->
  forall c,
    NoDup (map fst c) ->
    Forall (fun kv => snd kv = records_of (fst kv) fs) c ->
    (~ In k (map fst c) -> records_of k fs = []) ->
    Forall (fun kv => snd kv = records_of (fst kv) (fs ++ [f])) (append_to k f c).
Proof.
  intros Hk. subst k. induction c as [|[k' l] c IH]; intros Hnd Hall Hnew; cbn.
  - constructor; [|constructor]. cbn.
    rewrite records_of_app, Hnew by tauto. cbn. rewrite Z.eqb_refl. reflexivity.
  - apply Forall_cons_iff in Hall as [Hl Hc]. cbn in Hl.
    cbn in Hnd. apply NoDup_cons_iff in Hnd as [Hnotin Hnd'].
    destruct (Z.eqb_spec (eye_id f) k') as [e|n].
    + constructor.
      * cbn. rewrite records_of_app, <- Hl. cbn. rewrite e, Z.eqb_refl. reflexivity.
      * (* the other keys differ from [k'] *)
        apply Forall_forall. intros [k2 l2] Hin.
        pose proof (proj1 (Forall_forall _ _) Hc _ Hin) as H2. cbn in *.
        rewrite records_of_app, <- H2. cbn.
        destruct (Z.eqb_spec (eye_id f) k2) as [e2|_]; [|now rewrite List.app_nil_r].
        exfalso. apply Hnotin. rewrite <- e, e2.
        change k2 with (fst (k2, l2)). now apply in_map.
    + constructor.
      * cbn. rewrite records_of_app, <- Hl. cbn.
        destruct (Z.eqb_spec (eye_id f) k'); [contradiction|now rewrite List.app_nil_r].
      * apply IH; [exact Hnd'|exact Hc|].
        intros Hn. apply Hnew. cbn. intros [e|Hin]; [now apply n|now apply Hn].
Qed.

Lemma append_to_keyed (f : PreviewFrame) (fs : list PreviewFrame) (c : collections) :
  keyed_by fs c -> keyed_by (fs ++ [f]) (append_to (eye_id f) f c).
Proof.
  intros (Hnd & Hin & Hall).
  assert (Hmem : forall k, In k (map fst (append_to (eye_id f) f c))
                           <-> In k (map fst c) \/ k = eye_id f).
  { intros k. rewrite append_to_keys.
    destruct (existsb (Z.eqb (eye_id f)) (map fst c)) eqn:Ex.
    - apply existsb_eqb_In in Ex. split; [now left|intros [H| ->]; assumption].
    - rewrite in_app_iff. cbn. intuition. }
  split; [|split].
  - rewrite append_to_keys.
    destruct (existsb (Z.eqb (eye_id f)) (map fst c)) eqn:Ex; [exact Hnd|].
    apply NoDup_app; [exact Hnd|repeat constructor; intros []|].
    intros a Ha [<-|[]]. apply existsb_eqb_In in Ha. congruence.
  - intros k. rewrite Hmem, Hin. split.
    + intros [(g & Hg & e)| ->].
      * exists g. split; [apply in_or_app; now left|exact e].
      * exists f. split; [apply in_or_app; right; now left|reflexivity].
    + intros (g & Hg & e). apply in_app_or in Hg. destruct Hg as [Hg|[<-|[]]].
      * left. now exists g.
      * right. now symmetry.
  - apply append_to_entries; [reflexivity|exact Hnd|exact Hall|].
    intros Hn. apply records_of_none. intros g Hg e.
    apply Hn. apply Hin. now exists g.
Qed.

Lemma group_frames_keyed (fs : list PreviewFrame) :
  forall done c, keyed_by done c -> keyed_by (done ++ fs) (group_frames fs c).
Proof.
  induction fs as [|f fs IH]; intros done c H; cbn.
  - now rewrite List.app_nil_r.
  - replace (done ++ f :: fs)%list with ((done ++ [f]) ++ fs)%list
      by (rewrite <- app_assoc; reflexivity).
    apply IH. now apply append_to_keyed.
Qed.

Lemma group_frames_spec (fs : list PreviewFrame) : keyed_by fs (group_frames fs []).
Proof.
  apply (group_frames_keyed fs (done := []) (c := [])).
  split; [constructor|split; [|constructor]].
  intros k. cbn. split; [tauto|]. intros (f & [] & _).
Qed.

(** ** The loop of [load_all] *)

Lemma info_extractor_compiled : re_compile info_pattern = Some info_extractor.
Proof. vm_compute. reflexivity. Qed.

Lemma file_pattern_value : file_pattern = "eye*_frame*_confidence*.*".
Proof. reflexivity. Qed.

(** The loop visits the names the glob pattern selects, skips those the
    extractor does not fully match, and files the frames of the others. *)
Lemma scan_decode_all (listing : list string) :
  forall c,
    scan info_extractor (glob file_pattern listing) c
    = (fs <- decode_all listing ;; Ok (group_frames fs c)).
Proof.
  induction listing as [|name rest IH]; intros c; [reflexivity|].
  unfold glob in *. cbn [filter decode_all]. unfold decode_name, decode_with.
  destruct (fnmatch file_pattern name); [|apply IH].
  cbn [scan].
  destruct (fullmatch info_extractor name) as [cs|]; [|apply IH].
  destruct (frame_of_match cs) as [f|e]; cbn [bind]; [|reflexivity].
  rewrite IH. destruct (decode_all rest); reflexivity.
Qed.

Lemma load_all_decode (listing : list string) :
  load_all listing
  = (fs <- decode_all listing ;;
     Ok (zip_star (map (fun kv => sort_frames (snd kv)) (group_frames fs [])))).
Proof.
  unfold load_all, sorted_collections.
  rewrite info_extractor_compiled, scan_decode_all.
  destruct (decode_all listing); reflexivity.
Qed.

(** C8.  When the names of a folder decode to the frames [fs],
    [load_all] returns one tuple per position up to the count of the
    shortest group: the groups are the frames of each eye id sorted by
    ascending frame number, and the tuple at position [i] holds the [i]-th
    frame of every group, whatever their frame numbers.  An empty folder
    gives the empty tuple. *)
Theorem alignment_positional (listing : list string) (fs : list PreviewFrame) :
  decode_all listing = Ok fs ->
  aligned listing fs /\ load_all [] = Ok [].
Proof.
  intros Hd. split; [|reflexivity].
  destruct (group_frames_spec fs) as (Hnd & Hin & Hall).
  exists (map fst (group_frames fs [])).
  split; [exact Hnd|]. split; [exact Hin|]. cbn zeta.
  assert (Hg : map (fun kv => sort_frames (snd kv)) (group_frames fs [])
               = map (fun k => sort_frames (records_of k fs))
                   (map fst (group_frames fs []))).
  { rewrite map_map. apply map_ext_in. intros kv Hkv.
    rewrite (proj1 (Forall_forall _ _) Hall kv Hkv). reflexivity. }
  split; [|split; [|split; [|split]]].
  - rewrite load_all_decode, Hd. cbn [bind]. now rewrite Hg.
  - apply zip_star_length.
  - apply zip_star_nth.
  - apply Forall_forall. intros g Hg'. apply in_map_iff in Hg' as (k & <- & _).
    apply sort_frames_sorted.
  - apply Forall_forall. intros k _. apply sort_frames_perm.
Qed.

Lemma alignment_positional_witness :
  aligned five_and_three
    [mkPreviewFrame 0 30 (FFinite false 8196551321814303 (-53)) JPEG;
     mkPreviewFrame 1 20 (FFinite false 6305039478318694 (-53)) JPEG;
     mkPreviewFrame 0 10 (FFinite false 7205759403792794 (-53)) JPEG;
     mkPreviewFrame 0 50 (FFinite false 8917127262193582 (-53)) JPEG;
     mkPreviewFrame 1 60 (FFinite false 5404319552844595 (-53)) JPEG;
     mkPreviewFrame 0 20 (FFinite false 7656119366529843 (-53)) JPEG;
     mkPreviewFrame 1 40 (FFinite false 5854679515581645 (-53)) JPEG;
     mkPreviewFrame 0 40 (FFinite false 8556839292003942 (-53)) JPEG]
  /\ load_all [] = Ok [].
Proof.
  apply (@alignment_positional five_and_three). vm_compute. reflexivity.
Defined.

(** Five frames of one eye and three of the other give three tuples,
    matched by position: frame 10 goes with frame 20, 20 with 40, 30 with
    60. *)
Example five_and_three_loaded :
  option_map (map (map (fun f => (eye_id f, frame_num f))))
    (match load_all five_and_three with Ok ps => Some ps | Raise _ => None end)
  = Some [[(0, 10); (1, 20)]; [(0, 20); (1, 40)]; [(0, 30); (1, 60)]].
Proof. vm_compute. reflexivity. Qed.

Lemma decode_all_skips (listing : list string) :
  decode_all listing = decode_all (filter is_candidate listing).
Proof.
  induction listing as [|n rest IH]; [reflexivity|].
  cbn [filter decode_all]. unfold is_candidate.
  destruct (decode_name n) as [[f|e]|] eqn:Hn; cbn [decode_all]; rewrite ?Hn, ?IH;
    reflexivity.
Qed.

Lemma decode_all_completes (listing : list string) :
  (forall n e, In n listing -> decode_name n <> Some (Raise e)) ->
  exists fs, decode_all listing = Ok fs.
Proof.
  induction listing as [|n rest IH]; intros H; [now exists []|].
  cbn [decode_all].
  destruct IH as (fs & Hfs); [intros m e Hm; apply H; now right|].
  destruct (decode_name n) as [[f|e]|] eqn:Hn.
  - rewrite Hfs. now exists (f :: fs).
  - exfalso. apply (H n e); [now left|exact Hn].
  - now exists fs.
Qed.

Lemma decode_all_aborts (pre : list string) (n : string) (post : list string) (e : exn) :
  (forall m e', In m pre -> decode_name m <> Some (Raise e')) ->
  decode_name n = Some (Raise e) ->
  decode_all (pre ++ n :: post) = Raise e.
Proof.
  intros Hpre Hn. induction pre as [|m pre IH]; cbn [app decode_all].
  - now rewrite Hn.
  - rewrite IH by (intros m' e' Hm'; apply Hpre; now right).
    destruct (decode_name m) as [[f|e']|] eqn:Hm; try reflexivity.
    exfalso. apply (Hpre m e'); [now left|exact Hm].
Qed.

Lemma py_int_raises (s : string) (e : exn) :
  py_int s = Raise e -> exists msg, e = ValueError msg.
Proof.
  unfold py_int.
  repeat match goal with
         | |- context [if ?b then _ else _] => destruct b
         | |- context [match ?x with _ => _ end] => destruct x
         end;
    intros H; try discriminate; injection H as <-; eexists; reflexivity.
Qed.

Lemma py_float_raises (s : string) (e : exn) :
  py_float s = Raise e -> exists msg, e = ValueError msg.
Proof.
  unfold py_float.
  repeat match goal with
         | |- context [if ?b then _ else _] => destruct b
         | |- context [match ?x with _ => _ end] => destruct x
         end;
    intros H; try discriminate; injection H as <-; eexists; reflexivity.
Qed.

Lemma from_extension_raises (s : string) (e : exn) :
  from_extension s = Raise e -> exists msg, e = ValueError msg.
Proof.
  unfold from_extension.
  destruct (find _ _); intros H; [discriminate|].
  injection H as <-. eexists; reflexivity.
Qed.

(** Every conversion of the constructor call raises [ValueError]. *)
Lemma frame_of_match_raises (cs : captures) (e : exn) :
  frame_of_match cs = Raise e -> exists msg, e = ValueError msg.
Proof.
  unfold frame_of_match, bind.
  destruct (py_int (group 1 cs)) eqn:H1; [|intros [= <-]; eapply py_int_raises; eassumption].
  destruct (py_int (group 2 cs)) eqn:H2; [|intros [= <-]; eapply py_int_raises; eassumption].
  destruct (py_float (group 3 cs)) eqn:H3;
    [|intros [= <-]; eapply py_float_raises; eassumption].
  destruct (from_extension (group 4 cs)) eqn:H4;
    [discriminate|intros [= <-]; eapply from_extension_raises; eassumption].
Qed.

Lemma decode_name_unfold (n : string) :
  decode_name n = decode_with file_pattern info_extractor n.
Proof. reflexivity. Qed.

Lemma decode_with_raises (pat : string) (ex : regex) (n : string) (e : exn) :
  decode_with pat ex n = Some (Raise e) -> exists msg, e = ValueError msg.
Proof.
  unfold decode_with.
  destruct (fnmatch pat n); [|discriminate].
  destruct (fullmatch ex n) as [cs|]; [|discriminate].
  intros [= Hn]. eapply frame_of_match_raises; eassumption.
Qed.

(** C3, as stated, fails: a file with the name of a frame and an
    extension that is not an image format of the plugin makes [load_all]
    raise, and the regular frame after it is never reached. *)
Lemma unknown_extension_aborts :
  load_all gif_then_jpg = Raise (ValueError "Unknown extension 'gif'").
Proof. vm_compute. reflexivity. Qed.

(** C3, amended.  [load_all] skips every name that the glob pattern or
    the extractor rejects and goes on with the others.  It completes
    whenever no accepted name has a field that fails to convert; otherwise
    the first such name, in listing order, ends the scan with the
    [ValueError] of the failing conversion. *)
Theorem loader_skips_or_aborts (listing : list string) : skips_or_aborts listing.
Proof.
  unfold skips_or_aborts. split; [|split].
  - rewrite (load_all_decode listing), (load_all_decode (filter is_candidate listing)).
    now rewrite <- decode_all_skips.
  - intros H. destruct (decode_all_completes listing H) as (fs & Hfs).
    rewrite (load_all_decode listing), Hfs. eexists. reflexivity.
  - intros pre n post e -> Hpre Hn. split.
    + rewrite (load_all_decode (pre ++ n :: post)).
      now rewrite (@decode_all_aborts pre n post e Hpre Hn).
    + rewrite decode_name_unfold in Hn.
      exact (@decode_with_raises file_pattern info_extractor n e Hn).
Qed.

Lemma loader_skips_or_aborts_witness :
  load_all ("notes.txt" :: gif_then_jpg) = load_all gif_then_jpg
  /\ load_all gif_then_jpg = Raise (ValueError "Unknown extension 'gif'").
Proof.
  destruct (loader_skips_or_aborts ("notes.txt" :: gif_then_jpg)) as (Hskip & _ & _).
  destruct (loader_skips_or_aborts gif_then_jpg) as (_ & _ & Habort).
  assert (F : filter is_candidate ("notes.txt" :: gif_then_jpg) = gif_then_jpg)
    by (vm_compute; reflexivity).
  rewrite F in Hskip.
  split; [exact Hskip|].
  assert (D : decode_name "eye0_frame1_confidence0.5000.gif"
              = Some (Raise (ValueError "Unknown extension 'gif'")))
    by (vm_compute; reflexivity).
  refine (proj1 (Habort [] "eye0_frame1_confidence0.5000.gif"
                   ["eye0_frame2_confidence0.5000.jpg"]
                   (ValueError "Unknown extension 'gif'") eq_refl _ D)).
  intros m e' [].
Defined.

(** ** The extractor *)

Lemma append_assoc (a b c : string) : (a ++ b) ++ c = a ++ (b ++ c).
Proof. induction a as [|x a IH]; cbn; [reflexivity|now rewrite IH]. Qed.

Lemma append_nil_r (a : string) : a ++ "" = a.
Proof. induction a as [|x a IH]; cbn; [reflexivity|now rewrite IH]. Qed.

Lemma length_append (a b : string) :
  String.length (a ++ b) = (String.length a + String.length b)%nat.
Proof. induction a as [|x a IH]; cbn; [reflexivity|now rewrite IH]. Qed.

Lemma take_append (a b : string) : take (String.length a) (a ++ b) = a.
Proof. induction a as [|x a IH]; cbn; [now destruct b|now rewrite IH]. Qed.

Lemma consumed_append (a b : string) : consumed (a ++ b) b = a.
Proof.
  unfold consumed. rewrite length_append.
  replace (String.length a + String.length b - String.length b)%nat
    with (String.length a) by lia.
  apply take_append.
Qed.

Lemma consumed_all (s : string) : consumed s "" = s.
Proof.
  pose proof (consumed_append s "") as H. now rewrite append_nil_r in H.
Qed.

Lemma plus_range_sound {A : Type} (lo hi : ascii) (k : string -> option A) (res : A) :
  forall s,
    plus_range lo hi s k = Some res ->
    exists s1 s2,
      s = s1 ++ s2 /\ s1 <> "" /\ all_chars (in_range lo hi) s1 = true
      /\ k s2 = Some res.
Proof.
  induction s as [|c s IH]; cbn; [discriminate|].
  destruct (in_range lo hi c) eqn:Hc; [|discriminate].
  destruct (plus_range lo hi s k) as [x|] eqn:Hp.
  - intros [= ->]. destruct (IH eq_refl) as (s1 & s2 & -> & _ & Hall & Hk).
    exists (String c s1), s2. cbn. rewrite Hc, Hall. repeat split; congruence.
  - intros Hk. exists (String c ""), s. cbn. rewrite Hc. repeat split; congruence.
Qed.

(** Whatever the matcher finds is a match: the input splits into a part
    the expression matches and the rest, on which the continuation
    succeeds. *)
Lemma rmatch_sound {A : Type} (r : regex) :
  forall (s : string) (cs : captures) (k : string -> captures -> option A) (res : A),
    rmatch r s cs k = Some res ->
    exists s1 s2 cs',
      s = s1 ++ s2 /\ matches r s1 cs cs' /\ k s2 cs' = Some res.
Proof.
  induction r as [|c| |lo hi|r1 IH1 r2 IH2|r1 IH1 r2 IH2|r1 IH1|lo hi|i r1 IH1];
    intros s cs k res H; cbn [rmatch] in H; cbn [matches].
  - exists "", s, cs. auto.
  - destruct s as [|c' s]; [discriminate|].
    destruct (Ascii.eqb_spec c c') as [<-|]; [|discriminate].
    exists (String c ""), s, cs. auto.
  - destruct s as [|c' s]; [discriminate|].
    destruct (Ascii.eqb_spec c' newline); [discriminate|].
    exists (String c' ""), s, cs. repeat split; eauto.
  - destruct s as [|c' s]; [discriminate|].
    destruct (in_range lo hi c') eqn:Hc; [|discriminate].
    exists (String c' ""), s, cs. repeat split; eauto.
  - apply IH1 in H as (s1 & s' & cs1 & -> & M1 & H).
    apply IH2 in H as (s2 & s3 & cs2 & -> & M2 & H).
    exists (s1 ++ s2), s3, cs2. rewrite append_assoc. repeat split; eauto 10.
  - destruct (rmatch r1 s cs k) as [x|] eqn:H1.
    + injection H as ->. apply IH1 in H1 as (s1 & s2 & cs' & -> & M & Hk).
      exists s1, s2, cs'. auto.
    + apply IH2 in H as (s1 & s2 & cs' & -> & M & Hk).
      exists s1, s2, cs'. auto.
  - destruct (rmatch r1 s cs k) as [x|] eqn:H1.
    + injection H as ->. apply IH1 in H1 as (s1 & s2 & cs' & -> & M & Hk).
      exists s1, s2, cs'. auto.
    + exists "", s, cs. auto.
  - apply plus_range_sound in H as (s1 & s2 & -> & Hne & Hall & Hk).
    exists s1, s2, cs. auto.
  - apply IH1 in H as (s1 & s2 & cs1 & -> & M & Hk).
    rewrite consumed_append in Hk.
    exists s1, s2, ((i, s1) :: cs1). eauto.
Qed.

Lemma matches_lit (p : string) (r : regex) (s : string) (cs cs' : captures) :
  matches (lit p r) s cs cs' -> exists s2, s = p ++ s2 /\ matches r s2 cs cs'.
Proof.
  unfold lit. revert s. induction p as [|c p IH]; intros s; cbn.
  - intros M. now exists s.
  - intros (s1 & s2 & cs1 & -> & (-> & ->) & M).
    apply IH in M as (s3 & -> & M). now exists s3.
Qed.

Lemma matches_info_group (g : string) (cs cs' : captures) :
  matches info_group g cs cs' -> is_token g /\ cs' = cs.
Proof.
  unfold info_group, is_token, is_digits, is_word.
  cbn [matches].
  intros [(s1 & s2 & cs1 & -> & (Hne & Hall & ->) & Hopt) | (Hne & Hall & ->)].
  - apply String.eqb_neq in Hne. change (all_chars is_digit s1 = true) in Hall.
    destruct Hopt as [(t1 & t2 & cs2 & -> & (-> & ->) & Hne2 & Hall2 & ->) | (-> & ->)].
    + apply String.eqb_neq in Hne2. change (all_chars is_digit t2 = true) in Hall2.
      split; [|reflexivity]. right; left.
      exists s1, t2. rewrite Hne, Hne2, Hall, Hall2. auto.
    + split; [|reflexivity]. left. rewrite append_nil_r, Hne, Hall. reflexivity.
  - apply String.eqb_neq in Hne. change (all_chars is_lower g = true) in Hall.
    split; [|reflexivity]. right; right.
    rewrite Hne, Hall. reflexivity.
Qed.

(** The names the extractor fully matches, and the four groups. *)
Lemma fullmatch_info_extractor (name : string) (cs : captures) :
  fullmatch info_extractor name = Some cs ->
  exists g1 g2 g3 c g4,
    name = "eye" ++ g1 ++ "_frame" ++ g2 ++ "_confidence" ++ g3 ++ String c g4
    /\ cs = [(4%nat, g4); (3%nat, g3); (2%nat, g2); (1%nat, g1)]
    /\ is_token g1 /\ is_token g2 /\ is_token g3 /\ is_token g4
    /\ c <> newline.
Proof.
  unfold fullmatch. intros H.
  apply rmatch_sound in H as (s1 & s2 & cs' & -> & M & Hk).
  destruct (String.eqb_spec s2 "") as [->|]; [|discriminate]. injection Hk as ->.
  rewrite append_nil_r. unfold info_extractor in M.
  apply matches_lit in M as (t1 & -> & M). cbn [matches] in M.
  destruct M as (g1 & t2 & c1 & -> & (c1' & M1 & ->) & M).
  apply matches_info_group in M1 as (T1 & ->).
  apply matches_lit in M as (t3 & -> & M). cbn [matches] in M.
  destruct M as (g2 & t4 & c2 & -> & (c2' & M2 & ->) & M).
  apply matches_info_group in M2 as (T2 & ->).
  apply matches_lit in M as (t5 & -> & M). cbn [matches] in M.
  destruct M as (g3 & t6 & c3 & -> & (c3' & M3 & ->) & M).
  apply matches_info_group in M3 as (T3 & ->).
  destruct M as (a & g4 & c4 & -> & (c & -> & Hc & ->) & (c4' & M4 & ->)).
  apply matches_info_group in M4 as (T4 & ->).
  exists g1, g2, g3, c, g4. repeat split; assumption.
Qed.

(** ** Printing and reading integers *)

Lemma uint_string_digits (d : Decimal.uint) :
  all_chars is_digit (NilEmpty.string_of_uint d) = true.
Proof. induction d; cbn; auto. Qed.

Lemma uint_string_nonnil (d : Decimal.uint) :
  d <> Decimal.Nil ->
  NilZero.string_of_uint d = NilEmpty.string_of_uint d
  /\ NilEmpty.string_of_uint d <> "".
Proof. destruct d; intros H; try contradiction; split; (reflexivity || discriminate). Qed.

Lemma str_int_nonneg (z : Z) : 0 <= z -> is_digits (str_int z) = true.
Proof.
  intros Hz. destruct z as [|p|p]; [reflexivity| |lia].
  unfold str_int, is_digits. cbn [Z.to_int NilZero.string_of_int].
  destruct (uint_string_nonnil (Unsigned.to_uint_nonnil p)) as [-> Hne].
  apply String.eqb_neq in Hne. rewrite Hne, uint_string_digits. reflexivity.
Qed.

Lemma str_int_value (z : Z) (s : string) :
  str_int z = s -> is_digits s = true -> z = digits_value s.
Proof.
  intros <- Hd. destruct z as [|p|p]; [reflexivity| |discriminate].
  unfold str_int, digits_value. cbn [Z.to_int NilZero.string_of_int].
  destruct (uint_string_nonnil (Unsigned.to_uint_nonnil p)) as [-> _].
  rewrite NilEmpty.usu. unfold Z.of_uint. rewrite Unsigned.of_to. reflexivity.
Qed.

Lemma str_int_chars (z : Z) :
  all_chars (fun c => is_digit c || Ascii.eqb c "-") (str_int z) = true.
Proof.
  assert (D : forall d, all_chars (fun c => is_digit c || Ascii.eqb c "-")
                          (NilEmpty.string_of_uint d) = true)
    by (induction d; cbn; auto).
  assert (Z0 : forall d, all_chars (fun c => is_digit c || Ascii.eqb c "-")
                          (NilZero.string_of_uint d) = true)
    by (intros d; destruct d; try reflexivity; apply D).
  unfold str_int.
  destruct z; cbn [Z.to_int NilZero.string_of_int all_chars]; rewrite ?Z0; reflexivity.
Qed.

(** Two texts that agree up to and including the first occurrence of a
    separator. *)
Lemma append_cut (c : ascii) (a b x y : string) :
  all_chars (fun k => negb (Ascii.eqb k c)) a = true ->
  all_chars (fun k => negb (Ascii.eqb k c)) b = true ->
  a ++ String c x = b ++ String c y -> a = b /\ x = y.
Proof.
  revert b. induction a as [|k a IH]; intros [|k' b]; cbn; intros Ha Hb E.
  - injection E as ->. auto.
  - injection E as <- _. rewrite Ascii.eqb_refl in Hb. discriminate.
  - injection E as -> _. rewrite Ascii.eqb_refl in Ha. discriminate.
  - injection E as -> E.
    apply andb_true_iff in Ha as [_ Ha]. apply andb_true_iff in Hb as [_ Hb].
    destruct (IH b Ha Hb E) as [-> ->]. auto.
Qed.

Lemma all_chars_impl (p q : ascii -> bool) (s : string) :
  (forall c, p c = true -> q c = true) ->
  all_chars p s = true -> all_chars q s = true.
Proof.
  intros H. induction s as [|c s IH]; cbn; [reflexivity|].
  intros E. apply andb_true_iff in E as [Hc Hs]. rewrite (H c Hc), (IH Hs). reflexivity.
Qed.

Lemma str_int_no_underscore (z : Z) :
  all_chars (fun k => negb (Ascii.eqb k "_")) (str_int z) = true.
Proof.
  eapply all_chars_impl; [|apply str_int_chars].
  intros c Hc. destruct (Ascii.eqb_spec c "_") as [->|]; [discriminate Hc|reflexivity].
Qed.

(** The file name of a frame, field by field. *)
Lemma PreviewFrame_str_fields (r : PreviewFrame) :
  PreviewFrame_str r
  = "eye" ++ str_int (eye_id r) ++ "_frame" ++ str_int (frame_num r)
      ++ "_confidence" ++ format_05_4f (confidence r) ++ "." ++ Format_str (format r).
Proof.
  rewrite <- (append_nil_r (Format_str (format r))) at 1. reflexivity.
Qed.

(** ** The names from which frames are built *)

Lemma token_head (c : ascii) (g : string) :
  is_token (String c g) -> is_digit c = true \/ is_lower c = true.
Proof.
  unfold is_token, is_digits, is_word.
  intros [H | [(i & f & E & Hi & _) | H]].
  - left. cbn in H. now apply andb_true_iff in H as [H _].
  - left. destruct i as [|c' i]; [discriminate Hi|].
    cbn in E. injection E as -> _. cbn in Hi. now apply andb_true_iff in Hi as [Hi _].
  - right. cbn in H. now apply andb_true_iff in H as [H _].
Qed.

Lemma py_int_token (g : string) (z : Z) :
  is_token g -> py_int g = Ok z -> is_digits g = true /\ z = digits_value g.
Proof.
  intros T. unfold py_int. destruct g as [|c g].
  - discriminate.
  - apply token_head in T.
    destruct (Ascii.eqb_spec c "-") as [->|_]; [destruct T; discriminate|].
    destruct (Ascii.eqb_spec c "+") as [->|_]; [destruct T; discriminate|].
    destruct (is_digits (String c g)); [|discriminate].
    intros [= <-]. auto.
Qed.

Lemma from_extension_ok (g : string) (fmt : Format) :
  from_extension g = Ok fmt -> g = Format_str fmt.
Proof.
  unfold from_extension. cbn [find Format_members].
  destruct (String.eqb_spec (Format_str JPEG) g) as [<-|_]; [now intros [= <-]|].
  destruct (String.eqb_spec (Format_str PNG) g) as [<-|_]; [now intros [= <-]|].
  destruct (String.eqb_spec (Format_str BMP) g) as [<-|_]; [now intros [= <-]|].
  discriminate.
Qed.

Lemma frame_of_match_ok (g1 g2 g3 g4 : string) (f : PreviewFrame) :
  is_token g1 -> is_token g2 ->
  frame_of_match [(4%nat, g4); (3%nat, g3); (2%nat, g2); (1%nat, g1)] = Ok f ->
  is_digits g1 = true /\ eye_id f = digits_value g1
  /\ is_digits g2 = true /\ frame_num f = digits_value g2
  /\ py_float g3 = Ok (confidence f)
  /\ g4 = Format_str (format f).
Proof.
  intros T1 T2. unfold frame_of_match. cbn [group Nat.eqb].
  destruct (py_int g1) as [e|] eqn:H1; [|discriminate].
  destruct (py_int g2) as [n|] eqn:H2; [|discriminate].
  destruct (py_float g3) as [c|] eqn:H3; [|discriminate].
  destruct (from_extension g4) as [fmt|] eqn:H4; [|discriminate].
  cbn [bind]. intros [= <-]. cbn [eye_id frame_num confidence format].
  destruct (@py_int_token g1 e T1 H1) as [D1 ->].
  destruct (@py_int_token g2 n T2 H2) as [D2 ->].
  apply from_extension_ok in H4. auto 10.
Qed.

(** The shape of a name from which the loop builds a frame. *)
Lemma decode_name_shape (name : string) (f : PreviewFrame) :
  decode_name name = Some (Ok f) -> template_shape name f.
Proof.
  rewrite decode_name_unfold. unfold decode_with.
  destruct (fnmatch file_pattern name); [|discriminate].
  destruct (fullmatch info_extractor name) as [cs|] eqn:Hm; [|discriminate].
  intros [= Hf].
  apply fullmatch_info_extractor in Hm
    as (g1 & g2 & g3 & c & g4 & -> & -> & T1 & T2 & T3 & _ & Hc).
  destruct (@frame_of_match_ok g1 g2 g3 g4 f T1 T2 Hf) as (D1 & E1 & D2 & E2 & F3 & ->).
  exists g1, g2, g3, c. auto 10.
Qed.

Lemma decode_all_In (listing : list string) :
  forall fs f,
    decode_all listing = Ok fs -> In f fs ->
    exists name, In name listing /\ decode_name name = Some (Ok f).
Proof.
  induction listing as [|n rest IH]; intros fs f H Hin.
  - injection H as <-. destruct Hin.
  - revert H. cbn [decode_all].
    destruct (decode_name n) as [[g|e]|] eqn:Hn; [|discriminate|].
    + destruct (decode_all rest) as [gs|] eqn:Hr; [|discriminate].
      cbn [bind]. intros [= <-]. destruct Hin as [<-|Hin].
      * exists n. split; [now left|exact Hn].
      * destruct (IH gs f eq_refl Hin) as (m & Hm & Hd).
        exists m. split; [now right|exact Hd].
    + intros H. destruct (IH fs f H Hin) as (m & Hm & Hd).
      exists m. split; [now right|exact Hd].
Qed.

Lemma Forall2_In_r {A B : Type} (P : A -> B -> Prop) (l : list A) (t : list B) (y : B) :
  Forall2 P l t -> In y t -> exists x, In x l /\ P x y.
Proof.
  induction 1 as [|a b l t Hab _ IH]; intros Hin; [destruct Hin|].
  destruct Hin as [<-|Hin].
  - exists a. split; [now left|exact Hab].
  - destruct (IH Hin) as (x & Hx & Hp). exists x. split; [now right|exact Hp].
Qed.

(** Every frame [load_all] returns was decoded from a name of the
    folder. *)
Lemma load_all_In (listing : list string) (ps : list (list PreviewFrame))
  (t : list PreviewFrame) (f : PreviewFrame) :
  load_all listing = Ok ps -> In t ps -> In f t ->
  exists name, In name listing /\ decode_name name = Some (Ok f).
Proof.
  rewrite (load_all_decode listing).
  destruct (decode_all listing) as [fs|] eqn:Hd; [|discriminate].
  cbn [bind]. intros [= <-] Ht Hf.
  apply In_nth_error in Ht as (i & Hi).
  apply zip_star_nth in Hi.
  destruct (@Forall2_In_r _ _ _ _ _ _ Hi Hf) as (g & Hg & Hn).
  apply nth_error_In in Hn.
  apply in_map_iff in Hg as (kv & <- & Hkv).
  apply (Permutation_in _ (Permutation_sym (sort_frames_perm (snd kv)))) in Hn.
  destruct (group_frames_spec fs) as (_ & _ & Hall).
  rewrite (proj1 (Forall_forall _ _) Hall kv Hkv) in Hn.
  apply filter_In in Hn as [Hn _].
  exact (@decode_all_In listing fs f Hd Hn).
Qed.

(** C4, as stated, fails: the loader builds a frame from a name that no
    frame is written under, since the encoder prints the eye id without
    leading zeros (and the confidence with four decimals). *)
Lemma zero_padded_name_accepted :
  load_all [zero_padded_name]
  = Ok [[mkPreviewFrame 7 1 (FFinite false 4503599627370496 (-53)) JPEG]]
  /\ forall r, PreviewFrame_str r <> zero_padded_name.
Proof.
  split; [vm_compute; reflexivity|].
  intros r E. rewrite PreviewFrame_str_fields in E.
  unfold zero_padded_name in E. cbn [append] in E.
  injection E as E.
  change "007_frame1_confidence0.5.jpg" with ("007" ++ String "_" "frame1_confidence0.5.jpg") in E.
  apply append_cut in E as [E _];
    [|apply str_int_no_underscore|reflexivity].
  pose proof (@str_int_value _ _ E eq_refl) as Hv.
  rewrite Hv in E. vm_compute in E. discriminate E.
Qed.

(** The dot of the template is compiled to the wildcard of the
    expression language: a name with any other character in its place is
    accepted as well. *)
Lemma no_dot_name_accepted :
  load_all [no_dot_name]
  = Ok [[mkPreviewFrame 0 1 (FFinite false 4503599627370496 (-53)) JPEG]].
Proof. vm_compute. reflexivity. Qed.

(** A word that [float] converts is accepted as a confidence. *)
Lemma nan_name_accepted :
  load_all ["eye0_frame1_confidencenan.jpg"] = Ok [[mkPreviewFrame 0 1 FNaN JPEG]].
Proof. vm_compute. reflexivity. Qed.

(** C4, amended.  Every frame [load_all] returns was built from a name of
    the folder that consists of the literal parts of the template around
    its four fields: a run of digits for the eye id and one for the frame
    number (leading zeros allowed), a token that [float] converts for the
    confidence (digits, digits with a fractional part of any length, or
    a word), one separating character, and the extension of one of the
    three formats. *)
Theorem loaded_names_follow_template (listing : list string)
  (ps : list (list PreviewFrame)) (t : list PreviewFrame) (f : PreviewFrame) :
  load_all listing = Ok ps -> In t ps -> In f t ->
  exists name, In name listing /\ template_shape name f.
Proof.
  intros Hl Ht Hf.
  destruct (@load_all_In listing ps t f Hl Ht Hf) as (name & Hin & Hd).
  exists name. split; [exact Hin|now apply decode_name_shape].
Qed.

Lemma loaded_names_follow_template_witness :
  exists name,
    In name [zero_padded_name]
    /\ template_shape name (mkPreviewFrame 7 1 (FFinite false 4503599627370496 (-53)) JPEG).
Proof.
  apply (@loaded_names_follow_template [zero_padded_name]
           [[mkPreviewFrame 7 1 (FFinite false 4503599627370496 (-53)) JPEG]]
           [mkPreviewFrame 7 1 (FFinite false 4503599627370496 (-53)) JPEG]).
  - vm_compute. reflexivity.
  - now left.
  - now left.
Defined.

(** ** Reading back the name of a frame *)

Lemma fnmatch_star (pat a b : string) :
  fnmatch pat b = true -> fnmatch (String "*" pat) (a ++ b) = true.
Proof.
  intros H. induction a as [|c a IH]; cbn [append].
  - destruct b as [|c b].
    + change (fnmatch pat "" || false = true). now rewrite H.
    + change (fnmatch pat (String c b) || fnmatch (String "*" pat) b = true).
      now rewrite H.
  - change (fnmatch pat (String c (a ++ b)) || fnmatch (String "*" pat) (a ++ b) = true).
    rewrite IH. apply orb_true_r.
Qed.

Lemma fnmatch_star_end (s : string) : fnmatch "*" s = true.
Proof.
  rewrite <- (append_nil_r s). now apply fnmatch_star.
Qed.

(** The glob pattern selects every name made of the literal parts of the
    template around four fields. *)
Lemma fnmatch_template (a b c d : string) :
  fnmatch file_pattern ("eye" ++ a ++ "_frame" ++ b ++ "_confidence" ++ c ++ "." ++ d)
  = true.
Proof.
  rewrite file_pattern_value.
  change (fnmatch (String "*" "_frame*_confidence*.*")
            (a ++ "_frame" ++ b ++ "_confidence" ++ c ++ "." ++ d) = true).
  apply fnmatch_star.
  change (fnmatch (String "*" "_confidence*.*")
            (b ++ "_confidence" ++ c ++ "." ++ d) = true).
  apply fnmatch_star.
  change (fnmatch (String "*" ".*") (c ++ "." ++ d) = true).
  apply fnmatch_star.
  change (fnmatch "*" d = true).
  apply fnmatch_star_end.
Qed.

Lemma rmatch_lit {A : Type} (p : string) (r : regex) (s : string) (cs : captures)
  (k : string -> captures -> option A) :
  rmatch (lit p r) (p ++ s) cs k = rmatch r s cs k.
Proof.
  unfold lit. induction p as [|c p IH]; cbn; [reflexivity|].
  now rewrite Ascii.eqb_refl.
Qed.

Lemma plus_range_head_fail {A : Type} (lo hi c : ascii) (w : string)
  (k : string -> option A) :
  in_range lo hi c = false -> plus_range lo hi (String c w) k = None.
Proof. intros H. cbn. now rewrite H. Qed.

Lemma plus_range_greedy {A : Type} (lo hi : ascii) (k : string -> option A) (res : A)
  (tail : string) :
  stops_at lo hi tail ->
  k tail = Some res ->
  forall ds,
    ds <> "" -> all_chars (in_range lo hi) ds = true ->
    plus_range lo hi (ds ++ tail) k = Some res.
Proof.
  intros Hstop Hk. induction ds as [|c ds IH]; intros Hne Hall; [contradiction|].
  cbn in Hall. apply andb_true_iff in Hall as [Hc Hall].
  cbn [append plus_range]. rewrite Hc.
  destruct ds as [|c' ds].
  - cbn [append]. destruct tail as [|t tail]; cbn [plus_range].
    + exact Hk.
    + cbn in Hstop. rewrite Hstop. exact Hk.
  - rewrite IH; [reflexivity|discriminate|exact Hall].
Qed.

Lemma is_digits_parts (ds : string) :
  is_digits ds = true -> ds <> "" /\ all_chars (in_range "0" "9") ds = true.
Proof.
  unfold is_digits. intros H. apply andb_true_iff in H as [Hne Hall].
  split; [|exact Hall]. intros ->. discriminate.
Qed.

(** A capture group takes a run of digits whole when the input does not
    go on with a digit or a dot. *)
Lemma group_takes_digits {A : Type} (i : nat) (ds tail : string) (cs : captures)
  (k : string -> captures -> option A) (res : A) :
  is_digits ds = true ->
  stops_at "0" "9" tail -> stops_at "." "." tail ->
  k tail ((i, ds) :: cs) = Some res ->
  rmatch (Group i info_group) (ds ++ tail) cs k = Some res.
Proof.
  intros Hd Hs1 Hs2 Hk. apply is_digits_parts in Hd as [Hne Hall].
  unfold info_group. cbn [rmatch].
  rewrite (@plus_range_greedy _ "0" "9" _ res tail); [reflexivity|exact Hs1| |exact Hne|exact Hall].
  rewrite consumed_append.
  destruct tail as [|t tail]; [exact Hk|].
  cbn in Hs2. destruct (Ascii.eqb_spec "." t) as [<-|_]; [discriminate Hs2|exact Hk].
Qed.

(** A capture group takes digits, a dot and digits whole when the input
    does not go on with a digit. *)
Lemma group_takes_decimal {A : Type} (i : nat) (ip fp tail : string) (cs : captures)
  (k : string -> captures -> option A) (res : A) :
  is_digits ip = true -> is_digits fp = true ->
  stops_at "0" "9" tail ->
  k tail ((i, ip ++ "." ++ fp) :: cs) = Some res ->
  rmatch (Group i info_group) ((ip ++ "." ++ fp) ++ tail) cs k = Some res.
Proof.
  intros Hi Hf Hs Hk.
  apply is_digits_parts in Hi as [Hine Hiall]. apply is_digits_parts in Hf as [Hfne Hfall].
  unfold info_group. cbn [rmatch].
  set (W := (ip ++ "." ++ fp) ++ tail).
  assert (EW : W = ip ++ String "." (fp ++ tail))
    by (unfold W; rewrite append_assoc; reflexivity).
  assert (inner : plus_range "0" "9" (fp ++ tail)
                    (fun s' => k s' ((i, consumed W s') :: cs)) = Some res).
  { apply plus_range_greedy; [exact Hs| |exact Hfne|exact Hfall].
    unfold W. rewrite consumed_append. exact Hk. }
  match goal with
  | |- match plus_range _ _ _ ?K with _ => _ end = _ => set (K0 := K)
  end.
  rewrite EW.
  rewrite (@plus_range_greedy _ "0" "9" K0 res (String "." (fp ++ tail)));
    [reflexivity|reflexivity| |exact Hine|exact Hiall].
  subst K0. cbn beta iota. rewrite Ascii.eqb_refl, inner. reflexivity.
Qed.

(** A capture group takes a word whole at the end of the input. *)
Lemma group_takes_word {A : Type} (i : nat) (w : string) (cs : captures)
  (k : string -> captures -> option A) (res : A) :
  is_word w = true ->
  k "" ((i, w) :: cs) = Some res ->
  rmatch (Group i info_group) w cs k = Some res.
Proof.
  unfold is_word. intros Hw Hk. apply andb_true_iff in Hw as [Hne Hall].
  destruct w as [|c w]; [discriminate Hne|].
  unfold info_group. cbn [rmatch].
  assert (Hc : in_range "0" "9" c = false).
  { cbn in Hall. apply andb_true_iff in Hall as [Hc _].
    unfold is_lower, in_range in *.
    apply andb_true_iff in Hc as [Hlo _]. apply Nat.leb_le in Hlo.
    apply andb_false_iff. right. apply Nat.leb_gt. cbn in *. lia. }
  rewrite (@plus_range_head_fail _ "0" "9" c w _ Hc).
  set (K0 := fun s' => k s' ((i, consumed (String c w) s') :: cs)).
  rewrite <- (append_nil_r (String c w)).
  apply plus_range_greedy; [exact I| |discriminate|exact Hall].
  subst K0. cbn beta. rewrite consumed_all. exact Hk.
Qed.

(** ** Printing and reading a confidence *)

Lemma round_half_even_bounds (a b n : Z) :
  0 < b -> 0 <= a <= n * b -> 0 <= round_half_even a b <= n.
Proof.
  intros Hb Ha. unfold round_half_even.
  pose proof (Z.div_mod a b ltac:(lia)) as E.
  pose proof (Z.mod_pos_bound a b Hb) as B.
  set (q := a / b) in *. set (r := a mod b) in *.
  assert (0 <= q) by nia.
  assert (q <= n) by nia.
  destruct (Z.ltb_spec (2 * r) b); [lia|].
  assert (q < n) by nia.
  destruct (Z.ltb_spec b (2 * r)); [lia|].
  destruct (Z.even q); lia.
Qed.

Lemma scaled4_unit (m e : Z) :
  in_unit_interval (FFinite false m e) = true -> 0 <= scaled4 m e <= 10000.
Proof.
  unfold in_unit_interval, scaled4. intros H.
  apply andb_true_iff in H as [Hm H]. apply Z.leb_le in Hm.
  destruct (Z.leb_spec 0 e) as [He|He].
  - apply Z.leb_le in H.
    assert (0 < 2 ^ e) by (apply Z.pow_pos_nonneg; lia). nia.
  - apply Z.leb_le in H.
    assert (0 < 2 ^ (- e)) by (apply Z.pow_pos_nonneg; lia).
    apply round_half_even_bounds; [assumption|nia].
Qed.

Lemma fixed4_length (n : Z) : (5 <= String.length (fixed4 n))%nat.
Proof. unfold fixed4. rewrite length_append. cbn. lia. Qed.

Lemma format_05_4f_finite (m e : Z) :
  format_05_4f (FFinite false m e) = fixed4 (scaled4 m e).
Proof.
  unfold format_05_4f, zero_pad.
  pose proof (fixed4_length (scaled4 m e)) as L.
  replace (5 - String.length "" - String.length (fixed4 (scaled4 m e)))%nat with 0%nat
    by (cbn [String.length]; lia).
  reflexivity.
Qed.

(** Each of the 10001 texts from [0.0000] to [1.0000] is read by [float]
    as a value that prints as the same text. *)
Lemma reads_back_all :
  forallb reads_back (map Z.of_nat (seq 0 (Z.to_nat 10001))) = true.
Proof. vm_compute. reflexivity. Qed.

Lemma reads_back_unit (n : Z) :
  0 <= n <= 10000 ->
  exists x, py_float (fixed4 n) = Ok x /\ format_05_4f x = fixed4 n.
Proof.
  intros Hn.
  assert (Hin : In n (map Z.of_nat (seq 0 (Z.to_nat 10001)))).
  { apply in_map_iff. exists (Z.to_nat n). split; [lia|]. apply in_seq. lia. }
  pose proof (proj1 (forallb_forall _ _) reads_back_all n Hin) as H.
  unfold reads_back in H.
  destruct (py_float (fixed4 n)) as [x|]; [|discriminate].
  exists x. split; [reflexivity|]. now apply String.eqb_eq.
Qed.

Lemma digit_char_digit (d : Z) : 0 <= d <= 9 -> is_digit (digit_char d) = true.
Proof.
  intros H.
  assert (C : d = 0 \/ d = 1 \/ d = 2 \/ d = 3 \/ d = 4 \/ d = 5 \/ d = 6 \/ d = 7
              \/ d = 8 \/ d = 9) by lia.
  repeat (destruct C as [-> | C]; [reflexivity|]). subst. reflexivity.
Qed.

Lemma fixed4_parts (n : Z) :
  0 <= n ->
  exists ip fp, fixed4 n = ip ++ "." ++ fp /\ is_digits ip = true /\ is_digits fp = true.
Proof.
  intros Hn. unfold fixed4. cbn zeta.
  pose proof (Z.mod_pos_bound n 10000 ltac:(lia)) as B.
  set (f := n mod 10000) in *.
  eexists _, _. split; [reflexivity|]. split.
  - apply str_int_nonneg. apply Z.div_pos; lia.
  - unfold is_digits. cbn [String.eqb negb all_chars andb].
    rewrite !digit_char_digit; [reflexivity| | | |].
    + pose proof (Z.mod_pos_bound f 10 ltac:(lia)). lia.
    + pose proof (Z.mod_pos_bound (f / 10) 10 ltac:(lia)). lia.
    + pose proof (Z.mod_pos_bound (f / 100) 10 ltac:(lia)). lia.
    + split; [apply Z.div_pos; lia|].
      apply Z.lt_succ_r. apply Z.div_lt_upper_bound; lia.
Qed.

Lemma py_int_str_int (z : Z) : 0 <= z -> py_int (str_int z) = Ok z.
Proof.
  intros Hz. pose proof (str_int_nonneg Hz) as Hd.
  pose proof (@str_int_value z (str_int z) eq_refl Hd) as Hv.
  unfold py_int. destruct (str_int z) as [|c s] eqn:E; [discriminate Hd|].
  assert (Hc : is_digit c = true).
  { unfold is_digits in Hd. cbn in Hd. now apply andb_true_iff in Hd as [Hc _]. }
  destruct (Ascii.eqb_spec c "-") as [->|_]; [discriminate Hc|].
  destruct (Ascii.eqb_spec c "+") as [->|_]; [discriminate Hc|].
  rewrite Hd, <- Hv. reflexivity.
Qed.

Lemma Format_str_word (f : Format) :
  is_word (Format_str f) = true /\ from_extension (Format_str f) = Ok f.
Proof. destruct f; split; reflexivity. Qed.

Lemma rmatch_seq {A : Type} (r1 r2 : regex) (s : string) (cs : captures)
  (k : string -> captures -> option A) :
  rmatch (Seq r1 r2) s cs k = rmatch r1 s cs (fun s' cs' => rmatch r2 s' cs' k).
Proof. reflexivity. Qed.

Lemma rmatch_any {A : Type} (c : ascii) (s : string) (cs : captures)
  (k : string -> captures -> option A) :
  c <> newline -> rmatch AnyChar (String c s) cs k = k s cs.
Proof.
  intros H. cbn [rmatch]. destruct (Ascii.eqb_spec c newline); [contradiction|reflexivity].
Qed.

(** The extractor fully matches a name written from the template, and
    its groups are the four fields. *)
Lemma fullmatch_encoded (a b ip fp : string) (f : Format) :
  is_digits a = true -> is_digits b = true ->
  is_digits ip = true -> is_digits fp = true ->
  fullmatch info_extractor
    ("eye" ++ a ++ "_frame" ++ b ++ "_confidence" ++ (ip ++ "." ++ fp)
       ++ "." ++ Format_str f)
  = Some [(4%nat, Format_str f); (3%nat, ip ++ "." ++ fp); (2%nat, b); (1%nat, a)].
Proof.
  intros Ha Hb Hip Hfp. unfold fullmatch, info_extractor.
  rewrite rmatch_lit, rmatch_seq.
  apply group_takes_digits; [exact Ha|reflexivity|reflexivity|].
  rewrite rmatch_lit, rmatch_seq.
  apply group_takes_digits; [exact Hb|reflexivity|reflexivity|].
  rewrite rmatch_lit, rmatch_seq.
  apply group_takes_decimal; [exact Hip|exact Hfp|reflexivity|].
  change ("." ++ Format_str f) with (String "." (Format_str f)).
  rewrite rmatch_seq, rmatch_any by discriminate.
  apply group_takes_word; [apply Format_str_word|reflexivity].
Qed.



(** The sample frame is written as [eye7_frame3_confidence0.1235.jpg] and
    read back unchanged. *)
Example sample_frame_read_back :
  PreviewFrame_str sample_frame = "eye7_frame3_confidence0.1235.jpg"
  /\ load_all [PreviewFrame_str sample_frame] = Ok [[sample_frame]].
Proof. split; vm_compute; reflexivity. Qed.

(** A confidence of negative zero is printed with a sign, which the
    extractor does not accept: such a frame is written under a name the
    loader skips.  (The interval of confidences above has the sign bit
    clear.) *)
Example negative_zero_skipped :
  PreviewFrame_str (mkPreviewFrame 0 1 (FFinite true 0 0) JPEG)
  = "eye0_frame1_confidence-0.0000.jpg"
  /\ load_all ["eye0_frame1_confidence-0.0000.jpg"] = Ok [].
Proof. split; vm_compute; reflexivity. Qed.

(* ================================================================== *)
(** * Every outcome of [ImageStream.add] *)
(* ================================================================== *)

Lemma views_shape (E : Externals) (fmt : string) (shp : list Z) (data : list byte) :
  match ImageStream.views E fmt shp data with
  | Ok _ => True
  | Raise e => e = CvError \/ e = ValueError "cannot reshape array"
  end.
Proof.
  unfold ImageStream.views.
  destruct (fmt =? "jpeg")%string.
  - destruct (imdecode E data); [exact I|now left].
  - unfold reshape.
    destruct (forallb (fun d => 0 <=? d) shp
              && (fold_left Z.mul shp 1 =? Z.of_nat (List.length data))); cbn [bind].
    + destruct (List.length shp =? 2)%nat; exact I.
    + now right.
Qed.

(** The shape of the result of a call, whatever the payload. *)
Lemma add_cases (E : Externals) (self : ImageStream.t) (p : Payload) :
  let K := ImageStream.frame_per_frames self in
  let c := ImageStream.counter self + 1 in
  (K = 0 /\ ImageStream.add E self p = (ImageStream.tick self, [], Raise ZeroDivisionError))
  \/ (K <> 0 /\ c mod K <> 0
      /\ ImageStream.add E self p = (ImageStream.tick self, [], Ok false))
  \/ (K <> 0 /\ c mod K = 0
      /\ ((exists e, ImageStream.add E self p = (ImageStream.tick self, [], Raise e))
          \/ (exists conf img,
                 ImageStream.add E self p
                 = (ImageStream.tick self,
                    [(mkPreviewFrame (ImageStream.eye_id self) c conf
                        (ImageStream.frame_format self), img)],
                    Ok true)))).
Proof.
  intros K c. subst K c. unfold ImageStream.add.
  cbn [ImageStream.tick ImageStream.frame_per_frames ImageStream.counter
       ImageStream.eye_id ImageStream.frame_format ImageStream.detector].
  destruct (Z.eqb_spec (ImageStream.frame_per_frames self) 0) as [e0|n0];
    [left; split; [assumption|reflexivity]|right].
  destruct (Z.eqb_spec ((ImageStream.counter self + 1) mod ImageStream.frame_per_frames self) 0)
    as [em|nm]; [right|left; repeat split; assumption].
  split; [assumption|]. split; [assumption|].
  destruct (negb (ImageStream.supported (p_format p))); [left; eexists; reflexivity|].
  destruct (ImageStream.last_buffer p) as [data|]; [|left; eexists; reflexivity].
  match goal with
  | |- context [if ?b then _ else _] => destruct b
  end; [|left; eexists; reflexivity].
  match goal with
  | |- context [ImageStream.views ?a ?b ?c ?d] => destruct (ImageStream.views a b c d) as [[g col]|e]
  end.
  - right. eexists _, _. reflexivity.
  - left. eexists. reflexivity.
Qed.

(** X1.  Whatever the payload and the collaborators, a call of [add]
    leaves the stream with its counter incremented and nothing else
    changed.  It returns [False] exactly when the interval is not zero and
    does not divide the new counter.  It returns [True] only when the
    interval divides the new counter, and then it has saved exactly one
    file, whose frame carries the eye id and the format of the stream and
    the new counter as its number.  A call that does not return [True]
    (one that returns [False] or raises) saves nothing. *)
Theorem add_outcome (E : Externals) (self : ImageStream.t) (p : Payload) :
  let K := ImageStream.frame_per_frames self in
  let c := ImageStream.counter self + 1 in
  let r := ImageStream.add E self p in
  fst (fst r) = ImageStream.tick self
  /\ (snd r = Ok false <-> K <> 0 /\ c mod K <> 0)
  /\ (snd r = Ok true ->
      K <> 0 /\ c mod K = 0
      /\ exists conf img,
           snd (fst r)
           = [(mkPreviewFrame (ImageStream.eye_id self) c conf
                 (ImageStream.frame_format self), img)])
  /\ (snd r <> Ok true -> snd (fst r) = []).
Proof.
  intros K c r. subst r.
  destruct (add_cases E self p) as [[H0 Ha] | [(H0 & Hm & Ha) | (H0 & Hm & [[e Ha] | (conf & img & Ha)])]];
    fold K in H0; try fold c in Hm; rewrite Ha; cbn [fst snd].
  - split; [reflexivity|]. split; [split; [discriminate|intros [? _]; contradiction]|].
    split; [discriminate|reflexivity].
  - split; [reflexivity|]. split; [split; [auto|reflexivity]|].
    split; [discriminate|reflexivity].
  - split; [reflexivity|]. split; [split; [discriminate|intros [_ ?]; contradiction]|].
    split; [discriminate|reflexivity].
  - split; [reflexivity|]. split; [split; [discriminate|intros [_ ?]; contradiction]|].
    split; [|intros N; now elim N].
    intros _. repeat split; try assumption. exists conf, img. reflexivity.
Qed.

Lemma feed_counts (E : Externals) (ps : list Payload) :
  forall self,
    ImageStream.counter (final (feed E self ps))
    = ImageStream.counter self + Z.of_nat (List.length ps)
    /\ List.length (outcomes (feed E self ps)) = List.length ps.
Proof.
  induction ps as [|p ps IH]; intros self.
  - cbn. split; [lia|reflexivity].
  - cbn [feed].
    destruct (add_cases E self p) as [[_ Ha] | [(_ & _ & Ha) | (_ & _ & [[e Ha] | (conf & img & Ha)])]];
      rewrite Ha; cbn [final outcomes List.length];
      destruct (IH (ImageStream.tick self)) as [IHc IHl];
      rewrite IHc, IHl, tick_counter; split; lia.
Qed.

(** X2.  The counter of a stream counts the calls of [add], not the
    frames saved: after any series of calls (calls that raise included, for
    any interval) it has grown by the number of calls.  So a stream built
    by [__init__] is false until its first call of [add] and true after
    it, whether or not that call saved anything. *)
Theorem counter_counts_calls (E : Externals) (self : ImageStream.t) (ps : list Payload)
  (eye k : Z) (folder : string) (size : Z * Z) (fmt : Format) (params : settings) :
  ImageStream.counter (final (feed E self ps))
  = ImageStream.counter self + Z.of_nat (List.length ps)
  /\ ImageStream_bool (final (feed E (ImageStream.init E eye k folder size fmt params) ps))
     = negb (List.length ps =? 0)%nat.
Proof.
  split; [apply feed_counts|].
  unfold ImageStream_bool. rewrite (proj1 (feed_counts E ps _)).
  cbn [ImageStream.init ImageStream.counter].
  destruct ps as [|p ps]; [reflexivity|].
  cbn [List.length Nat.eqb negb]. apply Z.ltb_lt. lia.
Qed.

Lemma feed_stalled (E : Externals) (ps : list Payload) :
  forall self,
    ImageStream.frame_per_frames self = 0 ->
    saved (feed E self ps) = []
    /\ outcomes (feed E self ps) = repeat (Raise ZeroDivisionError) (List.length ps).
Proof.
  induction ps as [|p ps IH]; intros self HK.
  - split; reflexivity.
  - cbn [feed].
    destruct (add_cases E self p) as [[_ Ha] | [(N & _) | (N & _)]]; try contradiction.
    rewrite Ha. cbn [saved outcomes app List.length repeat].
    destruct (IH (ImageStream.tick self) HK) as [IHs IHo].
    rewrite IHs, IHo. split; reflexivity.
Qed.

(** X3.  A stream whose sampling interval is zero never saves a frame:
    every call of [add] raises [ZeroDivisionError] (the modulo by the
    interval), while the counter still advances. *)
Theorem zero_interval_raises (E : Externals) (self : ImageStream.t) (ps : list Payload) :
  ImageStream.frame_per_frames self = 0 ->
  saved (feed E self ps) = []
  /\ outcomes (feed E self ps) = repeat (Raise ZeroDivisionError) (List.length ps)
  /\ ImageStream.counter (final (feed E self ps))
     = ImageStream.counter self + Z.of_nat (List.length ps).
Proof.
  intros HK. destruct (feed_stalled E ps self HK) as [Hs Ho].
  repeat split; [assumption|assumption|apply feed_counts].
Qed.

Lemma zero_interval_raises_witness :
  let r := feed plain_externals stalled_stream [gray_payload 2 2 4; gray_payload 2 2 4] in
  saved r = []
  /\ outcomes r = [Raise ZeroDivisionError; Raise ZeroDivisionError]
  /\ ImageStream.counter (final r) = 2.
Proof.
  apply (@zero_interval_raises plain_externals stalled_stream
           [gray_payload 2 2 4; gray_payload 2 2 4]).
  reflexivity.
Defined.

(* ================================================================== *)
(** * File names: formats, extensions and collisions *)
(* ================================================================== *)

Lemma to_int_nonnil (z : Z) :
  Z.to_int z <> Decimal.Pos Decimal.Nil /\ Z.to_int z <> Decimal.Neg Decimal.Nil.
Proof.
  destruct z as [|p|p]; cbn [Z.to_int]; split; try discriminate;
    intros H; injection H as H; exact (Unsigned.to_uint_nonnil p H).
Qed.

Lemma str_int_inj (a b : Z) : str_int a = str_int b -> a = b.
Proof.
  unfold str_int. intros H.
  destruct (to_int_nonnil a) as [Pa Na]. destruct (to_int_nonnil b) as [Pb Nb].
  pose proof (@NilZero.isi _ Pa Na) as Ia. pose proof (@NilZero.isi _ Pb Nb) as Ib.
  rewrite H in Ia. rewrite Ia in Ib. injection Ib as Ib.
  rewrite <- (DecimalZ.of_to a), <- (DecimalZ.of_to b). now rewrite Ib.
Qed.

Lemma append_same_tail (a b x y : string) :
  a ++ x = b ++ y -> String.length x = String.length y -> a = b /\ x = y.
Proof.
  revert b. induction a as [|c a IH]; intros [|d b] H L; cbn [append] in H.
  - split; [reflexivity|assumption].
  - exfalso. rewrite H in L. cbn [String.length] in L. rewrite length_append in L. lia.
  - exfalso. rewrite <- H in L. cbn [String.length] in L. rewrite length_append in L. lia.
  - injection H as -> H. destruct (IH b H L) as [-> ->]. split; reflexivity.
Qed.

Lemma Format_str_length (f : Format) : String.length (Format_str f) = 3%nat.
Proof. destruct f; reflexivity. Qed.

Lemma Format_str_inj (f g : Format) : Format_str f = Format_str g -> f = g.
Proof. destruct f, g; intros H; (reflexivity || discriminate H). Qed.

(** Two frames with the same file name agree on everything the name
    shows. *)
Lemma PreviewFrame_str_inj (r1 r2 : PreviewFrame) :
  PreviewFrame_str r1 = PreviewFrame_str r2 ->
  eye_id r1 = eye_id r2 /\ frame_num r1 = frame_num r2
  /\ format_05_4f (confidence r1) = format_05_4f (confidence r2)
  /\ format r1 = format r2.
Proof.
  rewrite !PreviewFrame_str_fields. intros H.
  cbn [append] in H. injection H as H.
  apply append_cut in H; try apply str_int_no_underscore.
  destruct H as [He H]. injection H as H.
  apply append_cut in H; try apply str_int_no_underscore.
  destruct H as [Hn H]. injection H as H.
  apply append_same_tail in H.
  2:{ cbn [String.length]. now rewrite !Format_str_length. }
  destruct H as [Hc H]. injection H as H.
  repeat split.
  - now apply str_int_inj.
  - now apply str_int_inj.
  - assumption.
  - now apply Format_str_inj.
Qed.

(** X4.  The file name determines the frame up to the rounding of the
    confidence: two frames whose names are equal have the same eye id, the
    same frame number and the same format, and their confidences print as
    the same text.  Negative ids and numbers, and confidences that are not
    finite, are included. *)
Theorem file_name_injective (r1 r2 : PreviewFrame) :
  PreviewFrame_str r1 = PreviewFrame_str r2 ->
  eye_id r1 = eye_id r2 /\ frame_num r1 = frame_num r2
  /\ format r1 = format r2
  /\ format_05_4f (confidence r1) = format_05_4f (confidence r2).
Proof.
  intros H. destruct (@PreviewFrame_str_inj r1 r2 H) as (A & B & C & D).
  repeat split; assumption.
Qed.

Lemma file_name_injective_witness :
  let r1 := mkPreviewFrame (-1) 3 (FFinite false 1 (-1)) PNG in
  let r2 := mkPreviewFrame (-1) 3 (FFinite false 4503599627370497 (-53)) PNG in
  eye_id r1 = eye_id r2 /\ frame_num r1 = frame_num r2
  /\ format r1 = format r2
  /\ format_05_4f (confidence r1) = format_05_4f (confidence r2).
Proof.
  intros r1 r2. apply (@file_name_injective r1 r2).
  vm_compute. reflexivity.
Defined.

Lemma from_extension_unknown (ext : string) :
  (forall f, ext <> Format_str f) ->
  from_extension ext = Raise (ValueError ("Unknown extension '" ++ ext ++ "'")).
Proof.
  intros N. unfold from_extension, Format_members. cbn [find Format_str].
  destruct (String.eqb_spec "jpg" ext) as [e|_]; [elim (N JPEG); now rewrite <- e|].
  destruct (String.eqb_spec "png" ext) as [e|_]; [elim (N PNG); now rewrite <- e|].
  destruct (String.eqb_spec "bmp" ext) as [e|_]; [elim (N BMP); now rewrite <- e|].
  reflexivity.
Qed.

(** X5.  [Format.from_extension] is the inverse of [Format.__str__]: it
    returns a format exactly for that format's own extension ([jpg], [png],
    [bmp], in lower case), and for every other text, the empty one
    included, it raises [ValueError] with the message [Unknown extension]
    followed by the text in quotes. *)
Theorem from_extension_inverse (ext : string) :
  (forall f, from_extension ext = Ok f <-> ext = Format_str f)
  /\ ((forall f, ext <> Format_str f) ->
      from_extension ext = Raise (ValueError ("Unknown extension '" ++ ext ++ "'")))
  /\ ((exists f, ext = Format_str f) \/ (forall f, ext <> Format_str f)).
Proof.
  split; [|split].
  - intros f. split.
    + apply from_extension_ok.
    + intros ->. apply Format_str_word.
  - apply from_extension_unknown.
  - destruct (from_extension ext) as [f|e] eqn:E.
    + left. exists f. now apply from_extension_ok.
    + right. intros f ->. rewrite (proj2 (Format_str_word f)) in E. discriminate E.
Qed.

Lemma drop_append (a b : string) : drop (String.length a) (a ++ b) = b.
Proof. induction a as [|c a IH]; cbn; [now destruct b|exact IH]. Qed.

Lemma rfind_dot_last (a b : string) :
  all_chars (fun k => negb (Ascii.eqb k ".")) b = true ->
  rfind_dot (a ++ String "." b) = Some (String.length a).
Proof.
  intros Hb.
  assert (Nb : rfind_dot b = None).
  { induction b as [|c b IH]; [reflexivity|].
    cbn [all_chars] in Hb. apply andb_true_iff in Hb as [Hc Hb].
    cbn [rfind_dot]. rewrite (IH Hb).
    destruct (Ascii.eqb c "."); [discriminate Hc|reflexivity]. }
  induction a as [|c a IH].
  - cbn [append rfind_dot String.length]. rewrite Nb. reflexivity.
  - cbn [append rfind_dot String.length]. rewrite IH. reflexivity.
Qed.

Lemma rfind_dot_split (s : string) :
  forall i,
    rfind_dot s = Some i ->
    exists a b, s = a ++ String "." b /\ String.length a = i.
Proof.
  induction s as [|c s IH]; intros i H; [discriminate H|].
  cbn [rfind_dot] in H. destruct (rfind_dot s) as [j|] eqn:E.
  - injection H as <-. destruct (IH j eq_refl) as (a & b & -> & L).
    exists (String c a), b. cbn. split; [reflexivity|now rewrite L].
  - destruct (Ascii.eqb_spec c ".") as [->|_]; [|discriminate H].
    injection H as <-. exists "", s. split; reflexivity.
Qed.

Lemma Format_str_no_dot (f : Format) :
  all_chars (fun k => negb (Ascii.eqb k ".")) (Format_str f) = true.
Proof. destruct f; reflexivity. Qed.

Lemma from_path_stem (stem : string) (f : Format) :
  stem <> "" -> from_path (stem ++ "." ++ Format_str f) = Ok f.
Proof.
  intros Hs. unfold from_path, suffix.
  change ("." ++ Format_str f) with (String "." (Format_str f)).
  rewrite (@rfind_dot_last stem (Format_str f) (Format_str_no_dot f)).
  rewrite length_append. cbn [String.length]. rewrite Format_str_length.
  destruct stem as [|c stem]; [now elim Hs|].
  cbn [String.length].
  replace (0 <? S (String.length stem))%nat with true by (symmetry; apply Nat.ltb_lt; lia).
  replace (S (String.length stem) <? S (String.length stem) + 4 - 1)%nat with true
    by (symmetry; apply Nat.ltb_lt; lia).
  cbn [andb].
  change (S (String.length stem)) with (String.length (String c stem)).
  rewrite drop_append. cbn [drop]. apply Format_str_word.
Qed.

(** X6.  [Format.from_path] looks only at the text after the last dot of
    the file name: it returns a format exactly for the names that consist
    of a non-empty stem, a dot and that format's extension, so a name that
    is nothing but [.jpg] has no format, and for every other name it
    raises [ValueError] as [from_extension] does. *)
Theorem from_path_reads_suffix (name : string) (f : Format) :
  (from_path name = Ok f <->
   exists stem, stem <> "" /\ name = stem ++ "." ++ Format_str f)
  /\ from_path ".jpg" = Raise (ValueError "Unknown extension ''").
Proof.
  split; [|reflexivity]. split.
  - unfold from_path, suffix. intros H.
    destruct (rfind_dot name) as [i|] eqn:E; [|discriminate H].
    destruct (@rfind_dot_split name i E) as (a & b & -> & L).
    destruct (Nat.ltb_spec 0 i) as [Hi|Hi]; [|discriminate H].
    destruct (i <? String.length (a ++ String "." b) - 1)%nat; [|discriminate H].
    cbn [andb] in H. rewrite <- L in H. rewrite drop_append in H. cbn [drop] in H.
    apply from_extension_ok in H. subst b.
    exists a. split; [|reflexivity].
    intros ->. cbn in L. lia.
  - intros (stem & Hs & ->). now apply from_path_stem.
Qed.

(** X7.  The format of a frame can be read back from the name [__str__]
    gives it: [Format.from_path] applied to the file name of any frame
    returns the format of that frame, whatever the other three fields. *)
Theorem from_path_of_name (r : PreviewFrame) :
  from_path (PreviewFrame_str r) = Ok (format r).
Proof.
  rewrite PreviewFrame_str_fields.
  set (c := format_05_4f (confidence r)).
  set (e := "." ++ Format_str (format r)).
  replace ("eye" ++ str_int (eye_id r) ++ "_frame" ++ str_int (frame_num r)
             ++ "_confidence" ++ c ++ e)
    with (("eye" ++ str_int (eye_id r) ++ "_frame" ++ str_int (frame_num r)
             ++ "_confidence" ++ c) ++ e).
  - subst e. apply from_path_stem. discriminate.
  - rewrite !append_assoc. reflexivity.
Qed.

(* ================================================================== *)
(** * The loop of the worker *)
(* ================================================================== *)

Lemma lookup_store_same (id : Z) (v : ImageStream.t) (d : PreviewGenerator.streams) :
  PreviewGenerator.lookup id (PreviewGenerator.store id v d) = Some v.
Proof.
  induction d as [|[k w] d IH]; cbn [PreviewGenerator.store PreviewGenerator.lookup].
  - now rewrite Z.eqb_refl.
  - destruct (Z.eqb_spec id k) as [e|n]; cbn [PreviewGenerator.lookup].
    + subst k. now rewrite Z.eqb_refl.
    + destruct (Z.eqb_spec id k); [contradiction|exact IH].
Qed.

Lemma lookup_store_other (id id' : Z) (v : ImageStream.t) (d : PreviewGenerator.streams) :
  id' <> id ->
  PreviewGenerator.lookup id' (PreviewGenerator.store id v d) = PreviewGenerator.lookup id' d.
Proof.
  intros N. induction d as [|[k w] d IH]; cbn [PreviewGenerator.store PreviewGenerator.lookup].
  - destruct (Z.eqb_spec id' id); [contradiction|reflexivity].
  - destruct (Z.eqb_spec id k) as [e|n]; cbn [PreviewGenerator.lookup].
    + subst k. destruct (Z.eqb_spec id' id); [contradiction|reflexivity].
    + destruct (Z.eqb_spec id' k); [reflexivity|exact IH].
Qed.

(** The invariant survives a call of [add] that saves nothing. *)
Lemma numbered_below_tick (d : PreviewGenerator.streams) (files : list file) (id : Z)
  (fresh : ImageStream.t) :
  numbered_below d files ->
  ImageStream.eye_id fresh = id ->
  let stream := match PreviewGenerator.lookup id d with Some s => s | None => fresh end in
  numbered_below (PreviewGenerator.store id (ImageStream.tick stream) d) files.
Proof.
  intros (Hk & Hf & Hn) Hfresh stream.
  assert (Hs : ImageStream.eye_id stream = id).
  { subst stream. destruct (PreviewGenerator.lookup id d) eqn:E; [now apply Hk|assumption]. }
  split; [|split].
  - intros id' s. destruct (Z.eq_dec id' id) as [->|N].
    + rewrite lookup_store_same. intros [= <-]. exact Hs.
    + rewrite (@lookup_store_other id id' _ d N). apply Hk.
  - intros f Hin. destruct (Hf f Hin) as (s & Hl & Hle).
    destruct (Z.eq_dec (eye_id (fst f)) id) as [e|N].
    + rewrite e, lookup_store_same. eexists. split; [reflexivity|].
      rewrite tick_counter. subst stream. rewrite e in Hl. rewrite Hl. lia.
    + rewrite (@lookup_store_other id _ _ d N). exists s. split; assumption.
  - exact Hn.
Qed.

(** The invariant survives a call of [add] that saves a frame. *)
Lemma numbered_below_save (d : PreviewGenerator.streams) (files : list file) (id : Z)
  (fresh : ImageStream.t) (conf : pyfloat) (fmt : Format) (img : image) :
  numbered_below d files ->
  ImageStream.eye_id fresh = id ->
  let stream := match PreviewGenerator.lookup id d with Some s => s | None => fresh end in
  numbered_below (PreviewGenerator.store id (ImageStream.tick stream) d)
    (files ++ [(mkPreviewFrame (ImageStream.eye_id stream) (ImageStream.counter stream + 1)
                  conf fmt, img)])%list.
Proof.
  intros Inv Hfresh stream.
  pose proof (@numbered_below_tick d files id fresh Inv Hfresh) as (Hk' & Hf' & Hn').
  fold stream in Hk', Hf'.
  destruct Inv as (Hk & Hf & Hn).
  assert (Hs : ImageStream.eye_id stream = id).
  { subst stream. destruct (PreviewGenerator.lookup id d) eqn:E; [now apply Hk|assumption]. }
  split; [exact Hk'|split].
  - intros f Hin. apply in_app_or in Hin as [Hin|[<-|[]]]; [now apply Hf'|].
    cbn [fst eye_id frame_num]. rewrite Hs, lookup_store_same.
    eexists. split; [reflexivity|]. rewrite tick_counter. lia.
  - rewrite map_app. cbn [map fst eye_id frame_num].
    apply NoDup_app; [exact Hn|repeat constructor; intros []|].
    intros k Hin [<-|[]].
    apply in_map_iff in Hin as (f & Hkey & Hin).
    injection Hkey as He Hnum.
    destruct (Hf f Hin) as (s & Hl & Hle).
    rewrite He, Hs in Hl. subst stream. rewrite Hl in Hnum. lia.
Qed.

Lemma loop_numbered (E : Externals) (params : PreviewGenerator.t)
  (ts : list PreviewGenerator.turn) :
  forall d files,
    numbered_below d files ->
    NoDup (map (fun f => (eye_id (fst f), frame_num (fst f)))
             (fst (PreviewGenerator.loop E params d files ts))).
Proof.
  induction ts as [|t ts IH]; intros d files Inv.
  - exact (proj2 (proj2 Inv)).
  - destruct t as [|e| |topic p|e]; cbn [PreviewGenerator.loop fst];
      try exact (proj2 (proj2 Inv)).
    + now apply IH.
    + destruct (py_int (last_segment topic)) as [id|e]; [|exact (proj2 (proj2 Inv))].
      set (fresh := ImageStream.init E id (PreviewGenerator.frame_per_frames params)
                      (PreviewGenerator.folder params) (p_width p, p_height p)
                      (PreviewGenerator.frame_format params)
                      (PreviewGenerator.detector_parameters params)).
      set (stream := match PreviewGenerator.lookup id d with Some s => s | None => fresh end).
      pose proof (@numbered_below_tick d files id fresh Inv eq_refl) as Ht.
      destruct (add_cases E stream p)
        as [[_ Ha] | [(_ & _ & Ha) | (_ & _ & [[e Ha] | (conf & img & Ha)])]];
        rewrite Ha; cbn [fst]; rewrite ?List.app_nil_r.
      * exact (proj2 (proj2 Inv)).
      * now apply IH.
      * exact (proj2 (proj2 Inv)).
      * apply IH.
        exact (@numbered_below_save d files id fresh conf
                 (ImageStream.frame_format stream) img Inv eq_refl).
Qed.

Lemma NoDup_map_through {A B C : Type} (f : A -> B) (g : A -> C) (l : list A) :
  (forall x y, f x = f y -> g x = g y) ->
  NoDup (map g l) -> NoDup (map f l).
Proof.
  intros Hfg. induction l as [|x l IH]; cbn [map]; intros H; [constructor|].
  apply NoDup_cons_iff in H as [Hx Hl]. constructor; [|now apply IH].
  intros Hin. apply Hx.
  apply in_map_iff in Hin as (y & Hy & Hin).
  apply in_map_iff. exists y. split; [|assumption].
  symmetry. now apply Hfg.
Qed.

Lemma body_files (E : Externals) (params : PreviewGenerator.t) (W : PreviewGenerator.World) :
  snd (fst (PreviewGenerator.body E params W)) = []
  \/ snd (fst (PreviewGenerator.body E params W))
     = fst (PreviewGenerator.loop E params [] [] (PreviewGenerator.turns W)).
Proof.
  unfold PreviewGenerator.body.
  destruct (PreviewGenerator.connecting_send W); [now left|].
  destruct (PreviewGenerator.zmq_context W); [now left|].
  destruct (PreviewGenerator.msg_receiver W); [now left|].
  destruct (PreviewGenerator.starting_send W); [now left|].
  right. destruct (PreviewGenerator.loop E params [] [] (PreviewGenerator.turns W)).
  reflexivity.
Qed.

Lemma generate_written (E : Externals) (params : PreviewGenerator.t)
  (W : PreviewGenerator.World) :
  PreviewGenerator.written (PreviewGenerator.generate E params W)
  = snd (fst (PreviewGenerator.body E params W)).
Proof.
  unfold PreviewGenerator.generate.
  destruct (PreviewGenerator.body E params W) as [[log files] [|e|]]; cbn [fst snd];
    try reflexivity.
  destruct (is_Exception e); [|reflexivity].
  destruct (PreviewGenerator.report_send W); reflexivity.
Qed.

(** X8.  One run of the worker never writes two files of the same name,
    so no preview overwrites another: the streams are kept apart by eye id,
    and within a stream every saved frame is numbered with a counter that
    only grows.  This holds for any messages on the bus (topics that spell
    the same id differently included), any collaborators and any way the
    run ends. *)
Theorem worker_names_distinct (E : Externals) (params : PreviewGenerator.t)
  (W : PreviewGenerator.World) :
  NoDup (names (PreviewGenerator.written (PreviewGenerator.generate E params W))).
Proof.
  rewrite generate_written.
  destruct (body_files E params W) as [-> | ->]; [constructor|].
  unfold names.
  apply (@NoDup_map_through _ _ _ (fun f : file => PreviewFrame_str (fst f))
           (fun f : file => (eye_id (fst f), frame_num (fst f)))).
  - intros x y H. destruct (@PreviewFrame_str_inj (fst x) (fst y) H) as (A & B & _).
    now rewrite A, B.
  - apply loop_numbered. split; [|split].
    + intros id s H. discriminate H.
    + intros f [].
    + constructor.
Qed.





Lemma loop_ended (E : Externals) (params : PreviewGenerator.t)
  (ts post : list PreviewGenerator.turn) :
  forall d files,
    snd (PreviewGenerator.loop E params d files ts) <> PreviewGenerator.Polling ->
    PreviewGenerator.loop E params d files (ts ++ post)
    = PreviewGenerator.loop E params d files ts.
Proof.
  induction ts as [|t ts IH]; intros d files Hp.
  - now elim Hp.
  - destruct t as [|e| |topic p|e]; cbn [PreviewGenerator.loop app] in Hp |- *;
      try reflexivity.
    + now apply IH.
    + destruct (py_int (last_segment topic)) as [k|e]; [|reflexivity].
      destruct (ImageStream.add E _ p) as [[s w] [b|e]]; [|reflexivity].
      now apply IH.
Qed.

Lemma loop_appends (E : Externals) (params : PreviewGenerator.t)
  (ts : list PreviewGenerator.turn) :
  forall d files,
    exists more,
      fst (PreviewGenerator.loop E params d files ts) = (files ++ more)%list.
Proof.
  induction ts as [|t ts IH]; intros d files.
  - exists []. cbn. now rewrite List.app_nil_r.
  - destruct t as [|e| |topic p|e]; cbn [PreviewGenerator.loop fst];
      try (exists []; now rewrite List.app_nil_r).
    + apply IH.
    + destruct (py_int (last_segment topic)) as [k|e];
        [|exists []; now rewrite List.app_nil_r].
      destruct (ImageStream.add E _ p) as [[s w] [b|e]].
      * destruct (IH (PreviewGenerator.store k s d) (files ++ w)%list) as [more ->].
        exists (w ++ more)%list. now rewrite List.app_assoc.
      * exists w. reflexivity.
Qed.

(** X10.  Once the worker has stopped, whether on the request to exit or
    on an exception, nothing that arrives later has any effect: the run is
    the same whatever turns would have followed.  In particular a frame
    published after the request to exit is never sampled. *)
Theorem worker_stops_for_good (E : Externals) (params : PreviewGenerator.t)
  (W : PreviewGenerator.World) (post : list PreviewGenerator.turn) :
  PreviewGenerator.end_ (PreviewGenerator.generate E params W) <> PreviewGenerator.Running ->
  PreviewGenerator.generate E params (with_turns W (PreviewGenerator.turns W ++ post))
  = PreviewGenerator.generate E params W.
Proof.
  unfold PreviewGenerator.generate, PreviewGenerator.body, with_turns.
  cbn [PreviewGenerator.connecting_send PreviewGenerator.zmq_context
       PreviewGenerator.msg_receiver PreviewGenerator.starting_send
       PreviewGenerator.turns PreviewGenerator.report_send].
  destruct (PreviewGenerator.connecting_send W); [reflexivity|].
  destruct (PreviewGenerator.zmq_context W); [reflexivity|].
  destruct (PreviewGenerator.msg_receiver W); [reflexivity|].
  destruct (PreviewGenerator.starting_send W); [reflexivity|].
  intros Hend.
  rewrite (@loop_ended E params (PreviewGenerator.turns W) post [] []); [reflexivity|].
  intros Hp.
  destruct (PreviewGenerator.loop E params [] [] (PreviewGenerator.turns W)) as [files fl].
  cbn [snd] in Hp. subst fl. apply Hend. reflexivity.
Qed.

Lemma worker_stops_for_good_witness :
  let W := ready_world [PreviewGenerator.Frame "frame.eye.0" (gray_payload 2 2 4);
                        PreviewGenerator.Cancel] in
  let late := [PreviewGenerator.Frame "frame.eye.0" (gray_payload 2 2 4)] in
  PreviewGenerator.generate plain_externals every_second
    (with_turns W (PreviewGenerator.turns W ++ late))
  = PreviewGenerator.generate plain_externals every_second W.
Proof.
  intros W late.
  apply (@worker_stops_for_good plain_externals every_second W late).
  vm_compute. discriminate.
Defined.

(* ================================================================== *)
(** * The plugin: starting, stopping and the status pipe *)
(* ================================================================== *)




(** X12.  A worker that has died is never replaced.  While the plugin
    holds a worker whose process is no longer alive, [recording.stopped]
    does nothing at all: no exit request, no join, no preview, and the
    worker and the pipes stay in place.  Since the worker stays in place,
    [recording.started] does nothing either, so after any series of these
    two notifications the plugin is as it was and has done nothing. *)
Theorem dead_worker_is_kept (self : Preview.t)
  (calls : list (Preview.Host * Preview.Notification)) :
  Preview.worker self <> None ->
  Forall (fun c => Preview.is_alive (fst c) = false
                   /\ (Preview.subject (snd c) = "recording.started"
                       \/ Preview.subject (snd c) = "recording.stopped")) calls ->
  notify_each self calls = (self, []).
Proof.
  intros Hw Hall. induction calls as [|[H n] calls IH]; [reflexivity|].
  apply Forall_cons_iff in Hall as [[Hdead Hsub] Hrest]. cbn [fst snd] in Hdead, Hsub.
  cbn [notify_each].
  assert (Hstep : Preview.on_notify H self n = (self, [], None)).
  { unfold Preview.on_notify. rewrite Hdead.
    destruct (Preview.worker self) as [w|]; [|now elim Hw].
    rewrite !andb_false_r.
    destruct Hsub as [-> | ->]; cbn [String.eqb Ascii.eqb Bool.eqb andb];
      destruct (Preview.generator self), (Preview.window self) as [[|]|]; reflexivity. }
  rewrite Hstep, (IH Hrest). reflexivity.
Qed.

Lemma dead_worker_is_kept_witness :
  notify_each running_plugin
    [(host_after_crash, recording_stopped); (host_after_crash, recording_started)]
  = (running_plugin, []).
Proof.
  apply (@dead_worker_is_kept running_plugin
           [(host_after_crash, recording_stopped); (host_after_crash, recording_started)]).
  - discriminate.
  - constructor; [split; [reflexivity|right; reflexivity]|].
    constructor; [split; [reflexivity|left; reflexivity]|constructor].
Defined.

Lemma generate_sends_exceptions (E : Externals) (params : PreviewGenerator.t)
  (W : PreviewGenerator.World) (e : exn) :
  In (PreviewGenerator.Failure e)
    (PreviewGenerator.statuses (PreviewGenerator.generate E params W)) ->
  is_Exception e = true.
Proof.
  pose proof (body_statuses E params W) as Hb.
  unfold PreviewGenerator.generate.
  destruct (PreviewGenerator.body E params W) as [[log files] [|e'|]]; cbn [fst snd] in Hb |- *.
  - intros Hin. rewrite Forall_forall in Hb. destruct (Hb _ Hin) as [t Ht]. discriminate Ht.
  - destruct (is_Exception e') eqn:He.
    + destruct (PreviewGenerator.report_send W); cbn [PreviewGenerator.statuses].
      * intros Hin. rewrite Forall_forall in Hb. destruct (Hb _ Hin) as [t Ht]. discriminate Ht.
      * intros Hin. apply in_app_or in Hin as [Hin|[Hin|[]]].
        -- rewrite Forall_forall in Hb. destruct (Hb _ Hin) as [t Ht]. discriminate Ht.
        -- injection Hin as <-. exact He.
    + cbn [PreviewGenerator.statuses].
      intros Hin. rewrite Forall_forall in Hb. destruct (Hb _ Hin) as [t Ht]. discriminate Ht.
  - intros Hin. rewrite Forall_forall in Hb. destruct (Hb _ Hin) as [t Ht]. discriminate Ht.
Qed.

(** X13.  What the worker reports reaches the host through
    [recent_events]: of the messages a run of the worker sends, a text is
    logged, and an exception is raised again in the host, with the plugin
    unchanged, unless it is a [BrokenPipeError], which is swallowed and
    makes the plugin drop both pipes.  A plugin without a status pipe does
    nothing. *)
Theorem worker_status_in_host (E : Externals) (params : PreviewGenerator.t)
  (W : PreviewGenerator.World) (self : Preview.t) (m : PreviewGenerator.status) :
  In m (PreviewGenerator.statuses (PreviewGenerator.generate E params W)) ->
  recent_events self (Received m)
  = if negb (Preview.status_receiver self) then (self, [], None)
    else match m with
         | PreviewGenerator.Info text => (self, [Preview.LogInfo text], None)
         | PreviewGenerator.Failure BrokenPipeError => (Preview.set_pipes false self, [], None)
         | PreviewGenerator.Failure e => (self, [], Some e)
         end.
Proof.
  intros Hin. unfold recent_events.
  destruct (negb (Preview.status_receiver self)); [reflexivity|].
  destruct m as [text|e]; [reflexivity|].
  rewrite (@generate_sends_exceptions E params W e Hin).
  destruct e; reflexivity.
Qed.

Lemma worker_status_in_host_witness :
  recent_events running_plugin (Received (PreviewGenerator.Failure ZMQError))
  = (running_plugin, [], Some ZMQError).
Proof.
  apply (@worker_status_in_host plain_externals some_params refused_world running_plugin
           (PreviewGenerator.Failure ZMQError)).
  vm_compute. right. left. reflexivity.
Defined.

(** X14.  A broken status pipe costs the plugin its command pipe as
    well, and with it every way to stop the worker.  After [recent_events]
    has met a [BrokenPipeError], whether raised by the pipe or received from
    the worker, the worker is still held; so a later [recording.stopped]
    with the worker alive raises [AttributeError] before an exit request is
    sent or the worker is joined, and leaves the plugin as it is, and a later
    [recording.started] is ignored. *)
Theorem broken_pipe_strands_worker (H : Preview.Host) (self : Preview.t) (p : pending)
  (n : Preview.Notification) :
  Preview.status_receiver self = true ->
  Preview.worker self <> None ->
  p = PollFails BrokenPipeError \/ p = RecvFails BrokenPipeError
  \/ p = Received (PreviewGenerator.Failure BrokenPipeError) ->
  Preview.is_alive H = true ->
  let after := Preview.set_pipes false self in
  recent_events self p = (after, [], None)
  /\ (Preview.subject n = "recording.stopped" ->
      Preview.on_notify H after n
      = (after, [], Some (AttributeError "'NoneType' object has no attribute 'send'")))
  /\ (Preview.subject n = "recording.started" ->
      Preview.on_notify H after n = (after, [], None)).
Proof.
  intros Hr Hw Hp Ha after. split; [|split].
  - unfold recent_events. rewrite Hr. cbn [negb].
    destruct Hp as [-> | [-> | ->]]; reflexivity.
  - intros Hs. unfold Preview.on_notify. rewrite Hs, Ha.
    subst after. cbn [Preview.set_pipes Preview.worker].
    destruct (Preview.worker self) as [w|]; [|now elim Hw].
    cbn [String.eqb Ascii.eqb Bool.eqb andb]. reflexivity.
  - intros Hs. unfold Preview.on_notify. rewrite Hs, Ha.
    subst after. cbn [Preview.set_pipes Preview.worker Preview.generator Preview.window].
    destruct (Preview.worker self) as [w|]; [|now elim Hw].
    cbn [String.eqb Ascii.eqb Bool.eqb andb].
    destruct (Preview.generator self), (Preview.window self) as [[|]|]; reflexivity.
Qed.

Lemma broken_pipe_strands_worker_witness :
  let after := Preview.set_pipes false running_plugin in
  recent_events running_plugin (RecvFails BrokenPipeError) = (after, [], None)
  /\ Preview.on_notify some_host after recording_stopped
     = (after, [], Some (AttributeError "'NoneType' object has no attribute 'send'"))
  /\ Preview.on_notify some_host after recording_started = (after, [], None).
Proof.
  intros after.
  destruct (@broken_pipe_strands_worker some_host running_plugin (RecvFails BrokenPipeError)
              recording_stopped eq_refl ltac:(discriminate) ltac:(right; left; reflexivity)
              eq_refl) as (A & B & _).
  split; [exact A|]. split; [exact (B eq_refl)|reflexivity].
Defined.

Lemma fnmatch_star_inv (pat : string) (name : string) :
  fnmatch (String "*" pat) name = true ->
  exists a b, name = a ++ b /\ fnmatch pat b = true.
Proof.
  induction name as [|c name IH]; cbn [fnmatch]; intros H.
  - apply orb_true_iff in H as [H|H]; [|discriminate H].
    exists "", "". split; [reflexivity|exact H].
  - apply orb_true_iff in H as [H|H].
    + exists "", (String c name). split; [reflexivity|exact H].
    + destruct (IH H) as (a & b & -> & Hb).
      exists (String c a), b. split; [reflexivity|exact Hb].
Qed.

Lemma fnmatch_extension (f : Format) (name : string) :
  fnmatch ("." ++ Format_str f) name = true <-> name = "." ++ Format_str f.
Proof.
  split.
  - destruct f; cbn [Format_str append fnmatch]; intros H;
      destruct name as [|c1 [|c2 [|c3 [|c4 [|c5 name]]]]]; try discriminate H;
      repeat (apply andb_true_iff in H as [?%Ascii.eqb_eq H]); subst;
      try reflexivity; try discriminate H;
      cbn in H; rewrite ?andb_false_r in H; discriminate H.
  - intros ->. destruct f; reflexivity.
Qed.

(** The names that [*.ext] matches. *)
Lemma rough_pattern_matches (f : Format) (name : string) :
  fnmatch ("*." ++ Format_str f) name = true
  <-> exists stem, name = stem ++ "." ++ Format_str f.
Proof.
  split.
  - intros H. apply fnmatch_star_inv in H as (a & b & -> & Hb).
    apply fnmatch_extension in Hb. subst b. now exists a.
  - intros [stem ->]. change ("*." ++ Format_str f) with (String "*" ("." ++ Format_str f)).
    apply fnmatch_star. now apply fnmatch_extension.
Qed.

Lemma glob_empty (pat : string) (listing : list string) :
  (List.length (glob pat listing) =? 0)%nat = true
  <-> forall name, In name listing -> fnmatch pat name = false.
Proof.
  unfold glob. induction listing as [|x l IH]; cbn [filter].
  - split; [intros _ name []|reflexivity].
  - destruct (fnmatch pat x) eqn:E; cbn [List.length Nat.eqb].
    + split; [discriminate|]. intros H. rewrite (H x (or_introl eq_refl)) in E. discriminate E.
    + rewrite IH. split.
      * intros H name [<-|Hin]; [exact E|now apply H].
      * intros H name Hin. apply H. now right.
Qed.

(** X15.  Stopping a live worker that exits in time: the plugin asks it
    to exit, joins it for three seconds, and lets go of the worker and of
    both pipes while it keeps the generator.  Whether previews were
    generated is judged by the extension alone: the plugin announces the
    preview exactly when [should_show] is set and the folder of the
    generator holds at least one entry ending in a dot and the extension of
    the format, and it warns that no previews were generated exactly when
    the folder holds no such entry. *)
Theorem stop_announces (H : Preview.Host) (self : Preview.t) (n : Preview.Notification)
  (w g : PreviewGenerator.t) :
  Preview.subject n = "recording.stopped" ->
  Preview.worker self = Some w ->
  Preview.generator self = Some g ->
  Preview.command_sender self = true ->
  Preview.is_alive H = true ->
  Preview.exited_after_join H = true ->
  let has_file :=
    exists stem,
      In (stem ++ "." ++ Format_str (Preview.frame_format self))
        (Preview.listing H (PreviewGenerator.folder g)) in
  exists told,
    Preview.on_notify H self n
    = (Preview.mk false None false (Some g) (Preview.window self)
         (Preview.frames_per_frame self) (Preview.folder self) (Preview.should_show self)
         (Preview.frame_format self),
       [Preview.SendExit; Preview.Join 3; Preview.LogInfo "Stopping generation of previews."]
         ++ told,
       None)%list
    /\ (told = [Preview.NotifyAll Preview.NOTIFICATION_PREVIEW_SHOW]
        <-> Preview.should_show self = true /\ has_file)
    /\ (told = [Preview.LogWarning
                  "No previews were generated. Was the Frame Publisher activated?!"]
        <-> ~ has_file)
    /\ (told = [] <-> Preview.should_show self = false /\ has_file).
Proof.
  intros Hs Hw Hg Hc Ha He has_file.
  unfold Preview.on_notify. rewrite Hs, Hw, Ha.
  cbn [String.eqb Ascii.eqb Bool.eqb andb]. unfold Preview.stop.
  rewrite Hc, He, Hg. cbn [negb].
  assert (Hfile : (List.length
                     (glob ("*." ++ Format_str (Preview.frame_format self))
                        (Preview.listing H (PreviewGenerator.folder g))) =? 0)%nat = true
                  <-> ~ has_file).
  { rewrite glob_empty. subst has_file. split.
    - intros Hno [stem Hin]. specialize (Hno _ Hin).
      rewrite (proj2 (rough_pattern_matches (Preview.frame_format self) _)) in Hno;
        [discriminate Hno|now exists stem].
    - intros Hno name Hin.
      destruct (fnmatch ("*." ++ Format_str (Preview.frame_format self)) name) eqn:E;
        [|reflexivity].
      apply rough_pattern_matches in E as [stem ->]. elim Hno. now exists stem. }
  assert (Hstate : Preview.set_worker None (Preview.set_pipes false self)
                   = Preview.mk false None false (Some g) (Preview.window self)
                       (Preview.frames_per_frame self) (Preview.folder self)
                       (Preview.should_show self) (Preview.frame_format self)).
  { unfold Preview.set_worker, Preview.set_pipes.
    cbn [Preview.command_sender Preview.worker Preview.status_receiver Preview.generator
         Preview.window Preview.frames_per_frame Preview.folder Preview.should_show
         Preview.frame_format].
    now rewrite Hg. }
  rewrite Hstate.
  destruct (List.length
              (glob ("*." ++ Format_str (Preview.frame_format self))
                 (Preview.listing H (PreviewGenerator.folder g))) =? 0)%nat eqn:E.
  - assert (Hno : ~ has_file) by now apply Hfile.
    eexists. split; [reflexivity|].
    split; [split; [discriminate|tauto]|].
    split; [split; [auto|reflexivity]|].
    split; [discriminate|tauto].
  - assert (Hyes : has_file).
    { subst has_file.
      destruct (existsb (fnmatch ("*." ++ Format_str (Preview.frame_format self)))
                  (Preview.listing H (PreviewGenerator.folder g))) eqn:X.
      - apply existsb_exists in X as (name & Hin & Hm).
        apply rough_pattern_matches in Hm as [stem ->]. now exists stem.
      - rewrite (proj2 (glob_empty _ _)) in E; [discriminate E|].
        intros name Hin.
        destruct (fnmatch ("*." ++ Format_str (Preview.frame_format self)) name) eqn:Hm;
          [|reflexivity].
        assert (existsb (fnmatch ("*." ++ Format_str (Preview.frame_format self)))
                  (Preview.listing H (PreviewGenerator.folder g)) = true)
          by (apply existsb_exists; now exists name).
        congruence. }
    destruct (Preview.should_show self) eqn:Hshow;
      (eexists; split; [reflexivity|]).
    + split; [split; [auto|reflexivity]|].
      split; [split; [discriminate|tauto]|].
      split; [discriminate|]. intros [X _]. discriminate X.
    + split; [split; [discriminate|]|].
      { intros [X _]. discriminate X. }
      split; [split; [discriminate|tauto]|].
      split; [auto|reflexivity].
Qed.

Lemma stop_announces_witness :
  exists told,
    Preview.on_notify (host_listing ["notes.txt"; "eye0_frame3_confidence0.5000.jpg"])
      running_plugin recording_stopped
    = (stopped_plugin,
       [Preview.SendExit; Preview.Join 3; Preview.LogInfo "Stopping generation of previews."]
         ++ told,
       None)%list
    /\ told = [Preview.NotifyAll Preview.NOTIFICATION_PREVIEW_SHOW].
Proof.
  destruct (@stop_announces (host_listing ["notes.txt"; "eye0_frame3_confidence0.5000.jpg"])
              running_plugin recording_stopped some_params some_params
              eq_refl eq_refl eq_refl eq_refl eq_refl eq_refl) as (told & Hstep & Hshow & _ & _).
  exists told. split; [exact Hstep|].
  apply Hshow. split; [reflexivity|].
  exists "eye0_frame3_confidence0.5000". right. left. reflexivity.
Defined.

(* ================================================================== *)
(** * The preview window *)
(* ================================================================== *)

Lemma start_keeps_window (H : Preview.Host) (self : Preview.t) (n : Preview.Notification) :
  Preview.window (fst (fst (Preview.start H self n))) = Preview.window self
  /\ existsb touches_window (snd (fst (Preview.start H self n))) = false.
Proof.
  unfold Preview.start, PreviewGenerator.init.
  repeat match goal with
         | |- context [if ?b then _ else _] => destruct b; cbn [negb orb andb]
         end; split; reflexivity.
Qed.

Lemma stop_keeps_window (H : Preview.Host) (self : Preview.t) :
  Preview.window (fst (fst (Preview.stop H self))) = Preview.window self
  /\ existsb touches_window (snd (fst (Preview.stop H self))) = false.
Proof.
  unfold Preview.stop.
  destruct (negb (Preview.command_sender self)); [split; reflexivity|].
  destruct (negb (Preview.exited_after_join H)); [split; reflexivity|].
  destruct (Preview.generator self) as [g|]; [|split; reflexivity].
  destruct (List.length _ =? 0)%nat; [split; reflexivity|].
  destruct (Preview.should_show self); split; reflexivity.
Qed.

(** A window object that shows nothing stays as it is, whatever the
    notification. *)
Lemma failed_window_stays (H : Preview.Host) (self : Preview.t) (n : Preview.Notification) :
  Preview.window self = Some false ->
  Preview.window (fst (fst (Preview.on_notify H self n))) = Some false
  /\ existsb touches_window (snd (fst (Preview.on_notify H self n))) = false.
Proof.
  intros Hw. unfold Preview.on_notify.
  destruct ((Preview.subject n =? "recording.started")%string && _).
  - destruct (start_keeps_window H self n) as [A B]. rewrite A, B. now split.
  - destruct ((Preview.subject n =? "recording.stopped")%string && _ && _).
    + destruct (stop_keeps_window H self) as [A B]. rewrite A, B. now split.
    + rewrite Hw. rewrite andb_false_r.
      destruct (Preview.generator self); cbn [fst snd existsb]; now split.
Qed.

(** X16.  A preview that could not be shown is never shown later.  When
    [preview.show] reaches a plugin that has a generator and no window, and
    the folder yields no tuple of frames or loading it raises, the plugin
    keeps a window object that shows nothing.  From then on no notification
    opens or closes a window, however many follow and whatever their
    subjects: [preview.show] is ignored because a window object exists, and
    [preview.close] because that object shows nothing. *)
Theorem failed_show_is_final (H : Preview.Host) (self : Preview.t) (n : Preview.Notification)
  (g : PreviewGenerator.t) (calls : list (Preview.Host * Preview.Notification)) :
  Preview.subject n = Preview.NOTIFICATION_PREVIEW_SHOW ->
  Preview.generator self = Some g ->
  Preview.window self = None ->
  (forall frames,
      load_all (Preview.listing H (PreviewGenerator.folder g)) = Ok frames -> frames = []) ->
  let after := fst (fst (Preview.on_notify H self n)) in
  after = Preview.set_window (Some false) self
  /\ Preview.window (fst (notify_each after calls)) = Some false
  /\ existsb touches_window (snd (notify_each after calls)) = false.
Proof.
  intros Hs Hg Hw Hload after.
  assert (Hafter : after = Preview.set_window (Some false) self).
  { subst after. unfold Preview.on_notify. rewrite Hs, Hg, Hw.
    cbn [Preview.NOTIFICATION_PREVIEW_SHOW String.eqb Ascii.eqb Bool.eqb andb].
    unfold Preview.show.
    destruct (load_all (Preview.listing H (PreviewGenerator.folder g))) as [frames|e];
      [|reflexivity].
    rewrite (Hload frames eq_refl). reflexivity. }
  split; [exact Hafter|].
  assert (Hwin : Preview.window after = Some false) by now rewrite Hafter.
  clear Hafter. generalize dependent after. clear Hs Hg Hw Hload.
  induction calls as [|[H' n'] calls IH]; intros after Hwin.
  - split; [exact Hwin|reflexivity].
  - cbn [notify_each].
    destruct (@failed_window_stays H' after n' Hwin) as [A B].
    destruct (Preview.on_notify H' after n') as [[self1 done] err].
    cbn [fst snd] in A, B.
    destruct (IH self1 A) as [C D].
    destruct (notify_each self1 calls) as [self2 later]. cbn [fst snd] in C, D |- *.
    split; [exact C|]. rewrite existsb_app, B, D. reflexivity.
Qed.

Lemma failed_show_is_final_witness :
  let after := fst (fst (Preview.on_notify (host_listing ["notes.txt"]) stopped_plugin
                           preview_show)) in
  let later :=
    [(host_listing ["eye0_frame3_confidence0.5000.jpg"], preview_show);
     (host_listing ["eye0_frame3_confidence0.5000.jpg"], preview_close);
     (host_listing ["eye0_frame3_confidence0.5000.jpg"], preview_show)] in
  after = Preview.set_window (Some false) stopped_plugin
  /\ Preview.window (fst (notify_each after later)) = Some false
  /\ existsb touches_window (snd (notify_each after later)) = false.
Proof.
  intros after later.
  apply (@failed_show_is_final (host_listing ["notes.txt"]) stopped_plugin preview_show
           some_params later eq_refl eq_refl eq_refl).
  intros frames Hl. vm_compute in Hl. injection Hl as <-. reflexivity.
Defined.

Lemma tuple_item_in_range {A : Type} (l : list A) (index : Z) :
  0 <= index < Z.of_nat (List.length l) ->
  exists x, tuple_item l index = Ok x /\ nth_error l (Z.to_nat index) = Some x.
Proof.
  intros Hr. unfold tuple_item.
  destruct (Z.ltb_spec index 0); [lia|].
  destruct (Z.leb_spec 0 index); [|lia].
  destruct (Z.ltb_spec index (Z.of_nat (List.length l))); [|lia].
  cbn [andb].
  destruct (nth_error l (Z.to_nat index)) as [x|] eqn:E.
  - exists x. split; reflexivity.
  - apply nth_error_None in E. lia.
Qed.

Lemma on_key_in_range (frames : list (list PreviewFrame)) (i key action : Z) :
  0 <= i < Z.of_nat (List.length frames) ->
  0 <= fst (on_key frames i key action) < Z.of_nat (List.length frames)
  /\ (snd (on_key frames i key action) = None
      \/ snd (on_key frames i key action) = Some (fst (on_key frames i key action)))
  /\ (action = GLFW_RELEASE -> on_key frames i key action = (i, None))
  /\ Z.abs (fst (on_key frames i key action) - i) <= 1.
Proof.
  intros Hr. unfold on_key.
  destruct (Z.eqb_spec action GLFW_RELEASE) as [e|ne];
    [|destruct (key =? GLFW_KEY_LEFT); destruct (Z.ltb_spec 0 i); cbn [andb];
      destruct (key =? GLFW_KEY_RIGHT); cbn [andb];
      try destruct (Z.ltb_spec i (Z.of_nat (List.length frames) - 1))];
    cbn [fst snd];
    (split; [lia|split; [(now left) || (now right)
                        |split; [intros; (reflexivity || contradiction)|lia]]]).
Qed.

Lemma key_events_in_range (frames : list (list PreviewFrame)) (keys : list (Z * Z)) :
  forall i,
    0 <= i < Z.of_nat (List.length frames) ->
    0 <= fst (key_events frames i keys) < Z.of_nat (List.length frames)
    /\ Forall (fun d => 0 <= d < Z.of_nat (List.length frames))
         (snd (key_events frames i keys)).
Proof.
  induction keys as [|[key action] keys IH]; intros i Hr.
  - cbn. split; [exact Hr|constructor].
  - cbn [key_events].
    destruct (@on_key_in_range frames i key action Hr) as (Hi & Hd & _).
    destruct (on_key frames i key action) as [i' drawn]. cbn [fst snd] in Hi, Hd.
    destruct (IH i' Hi) as [Hj Hl].
    destruct (key_events frames i' keys) as [j later]. cbn [fst snd] in Hj, Hl |- *.
    split; [exact Hj|].
    destruct Hd as [-> | ->]; cbn [app]; [exact Hl|].
    constructor; assumption.
Qed.

(** X17.  Browsing never leaves the loaded frames.  The window shows
    index [0] first and installs the key callback only when at least one
    tuple was loaded; after any series of key events the index is still a
    position of the tuple of frames, and so is every index that was drawn,
    so [_draw_frame] finds its frames, and its caption counts from [1] to the
    number of tuples.  A key release does nothing, and the left key at the
    first and the right key at the last position do nothing either. *)
Theorem browsing_stays_in_range (frames : list (list PreviewFrame)) (keys : list (Z * Z)) :
  frames <> [] ->
  let n := Z.of_nat (List.length frames) in
  0 <= fst (key_events frames 0 keys) < n
  /\ Forall (fun d => 0 <= d < n /\ exists texts, captions frames d = Ok texts)
       (snd (key_events frames 0 keys))
  /\ (forall i key, on_key frames i key GLFW_RELEASE = (i, None))
  /\ (forall action, on_key frames 0 GLFW_KEY_LEFT action = (0, None))
  /\ (forall action, on_key frames (n - 1) GLFW_KEY_RIGHT action = (n - 1, None)).
Proof.
  intros Hne n.
  assert (Hn : 0 <= 0 < n).
  { subst n. destruct frames; [now elim Hne|]. cbn [List.length]. lia. }
  destruct (@key_events_in_range frames keys 0 Hn) as [Hj Hl].
  split; [exact Hj|]. split; [|split; [|split]].
  - rewrite Forall_forall in Hl |- *. intros d Hd. specialize (Hl d Hd).
    split; [exact Hl|].
    destruct (@tuple_item_in_range _ frames d Hl) as (t & Ht & _).
    unfold captions. rewrite Ht. cbn [bind]. eexists. reflexivity.
  - intros i key. reflexivity.
  - intros action. unfold on_key. destruct (action =? GLFW_RELEASE); reflexivity.
  - intros action. unfold on_key. fold n. destruct (action =? GLFW_RELEASE); [reflexivity|].
    cbn [Z.eqb GLFW_KEY_RIGHT GLFW_KEY_LEFT Pos.eqb andb].
    rewrite Z.ltb_irrefl. reflexivity.
Qed.

Lemma browsing_stays_in_range_witness :
  let frames := [[sample_frame]; [sample_frame]] in
  let keys := [(GLFW_KEY_RIGHT, GLFW_PRESS); (GLFW_KEY_RIGHT, GLFW_PRESS);
               (GLFW_KEY_RIGHT, GLFW_RELEASE); (GLFW_KEY_LEFT, GLFW_PRESS);
               (GLFW_KEY_LEFT, GLFW_PRESS)] in
  key_events frames 0 keys = (0, [1; 0])
  /\ 0 <= fst (key_events frames 0 keys) < 2.
Proof.
  intros frames keys. split; [reflexivity|].
  apply (@browsing_stays_in_range frames keys). discriminate.
Defined.


(* ================================================================== *)
(** * What [load_all] returns *)
(* ================================================================== *)




(* ================================================================== *)
(** * From the stream to the loader *)
(* ================================================================== *)

(** The name of a frame as the sampling code produces it is decoded to a
    frame of the same name. *)
Lemma decode_encoded (r : PreviewFrame) :
  0 <= eye_id r -> 0 <= frame_num r -> in_unit_interval (confidence r) = true ->
  exists r',
    decode_name (PreviewFrame_str r) = Some (Ok r')
    /\ PreviewFrame_str r' = PreviewFrame_str r
    /\ eye_id r' = eye_id r /\ frame_num r' = frame_num r.
Proof.
  intros He Hn Hc.
  destruct (confidence r) as [| |neg m e] eqn:Ec; try discriminate Hc.
  destruct neg; [discriminate Hc|].
  pose proof (scaled4_unit _ _ Hc) as Hb.
  destruct (reads_back_unit Hb) as (x & Hx & Hfx).
  destruct (@fixed4_parts (scaled4 m e) ltac:(lia)) as (ip & fp & Hparts & Hip & Hfp).
  exists (mkPreviewFrame (eye_id r) (frame_num r) x (format r)).
  split; [|split; [|split; reflexivity]].
  - rewrite PreviewFrame_str_fields, Ec, format_05_4f_finite, Hparts.
    rewrite decode_name_unfold. unfold decode_with.
    rewrite fnmatch_template.
    rewrite fullmatch_encoded;
      [|apply str_int_nonneg; lia|apply str_int_nonneg; lia|exact Hip|exact Hfp].
    unfold frame_of_match. cbn [group Nat.eqb].
    rewrite (py_int_str_int He), (py_int_str_int Hn).
    rewrite <- Hparts, Hx. rewrite (proj2 (Format_str_word (format r))).
    reflexivity.
  - rewrite !PreviewFrame_str_fields. cbn [eye_id frame_num format confidence].
    rewrite Ec, Hfx, format_05_4f_finite. reflexivity.
Qed.

Lemma decode_all_named (e : Z) (listing : list string) :
  Forall (fun name => exists f, decode_name name = Some (Ok f)
                                /\ PreviewFrame_str f = name /\ eye_id f = e) listing ->
  exists fs,
    decode_all listing = Ok fs
    /\ map PreviewFrame_str fs = listing
    /\ Forall (fun f => eye_id f = e) fs.
Proof.
  induction listing as [|name listing IH]; intros Hall.
  - exists []. repeat split. constructor.
  - apply Forall_cons_iff in Hall as [(f & Hd & Hs & He) Hrest].
    destruct (IH Hrest) as (fs & Hfs & Hnames & Heyes).
    exists (f :: fs). cbn [decode_all]. rewrite Hd, Hfs. cbn [bind map].
    rewrite Hs, Hnames. repeat split. constructor; assumption.
Qed.

Lemma group_frames_one_eye (e : Z) (fs : list PreviewFrame) :
  Forall (fun f => eye_id f = e) fs ->
  forall l, group_frames fs [(e, l)] = [(e, (l ++ fs)%list)].
Proof.
  unfold group_frames. induction fs as [|f fs IH]; intros Hall l.
  - cbn. now rewrite List.app_nil_r.
  - apply Forall_cons_iff in Hall as [He Hrest].
    cbn [fold_left append_to]. rewrite He, Z.eqb_refl.
    rewrite (IH Hrest). now rewrite <- List.app_assoc.
Qed.

Lemma zip_upto_single {A : Type} (l : list A) :
  forall n, (List.length l <= n)%nat -> zip_upto n [l] = map (fun x => [x]) l.
Proof.
  induction l as [|x l IH]; intros n Hn.
  - destruct n; reflexivity.
  - destruct n as [|n]; [cbn in Hn; lia|].
    cbn [zip_upto heads option_map map tl]. f_equal. apply IH. cbn in Hn. lia.
Qed.

Lemma load_all_one_eye (e : Z) (listing : list string) (fs : list PreviewFrame) :
  decode_all listing = Ok fs ->
  Forall (fun f => eye_id f = e) fs ->
  load_all listing = Ok (map (fun f => [f]) (sort_frames fs)).
Proof.
  intros Hd Hall. rewrite (load_all_decode listing), Hd. cbn [bind].
  destruct fs as [|f fs]; [reflexivity|].
  apply Forall_cons_iff in Hall as [He Hrest].
  unfold group_frames. cbn [fold_left append_to]. rewrite He.
  fold (group_frames fs [(e, [f])]). rewrite (group_frames_one_eye Hrest).
  cbn [map snd app]. unfold zip_star.
  rewrite zip_upto_single by lia. reflexivity.
Qed.

(** Two lists of frames with the same names up to order, the first in
    ascending and the second in strictly ascending order of frame number,
    have the same names in the same order. *)
Lemma sorted_names_unique (l1 : list PreviewFrame) :
  forall l2,
    Permutation (map PreviewFrame_str l1) (map PreviewFrame_str l2) ->
    StronglySorted le_frame_num l1 ->
    StronglySorted (fun a b => frame_num a < frame_num b) l2 ->
    map PreviewFrame_str l1 = map PreviewFrame_str l2.
Proof.
  induction l1 as [|a l1 IH]; intros l2 Hp S1 S2.
  - apply Permutation_nil in Hp. now rewrite Hp.
  - destruct l2 as [|b l2].
    { apply Permutation_sym, Permutation_nil in Hp. discriminate Hp. }
    apply StronglySorted_inv in S1 as [S1 F1].
    apply StronglySorted_inv in S2 as [S2 F2].
    rewrite Forall_forall in F1, F2.
    assert (Hab : PreviewFrame_str a = PreviewFrame_str b).
    { assert (Ha : In (PreviewFrame_str a) (map PreviewFrame_str (b :: l2))).
      { eapply Permutation_in; [exact Hp|now left]. }
      assert (Hb : In (PreviewFrame_str b) (map PreviewFrame_str (a :: l1))).
      { eapply Permutation_in; [exact (Permutation_sym Hp)|now left]. }
      cbn [map] in Ha, Hb.
      destruct Ha as [Ha|Ha]; [now symmetry|].
      destruct Hb as [Hb|Hb]; [assumption|].
      exfalso.
      apply in_map_iff in Ha as (b' & Hb' & Hinb).
      apply in_map_iff in Hb as (a' & Ha' & Hina).
      apply PreviewFrame_str_inj in Hb' as (_ & Nb & _).
      apply PreviewFrame_str_inj in Ha' as (_ & Na & _).
      pose proof (F1 a' Hina) as L1. unfold le_frame_num in L1.
      pose proof (F2 b' Hinb) as L2. cbn beta in L2. lia. }
    cbn [map] in Hp |- *. rewrite Hab in Hp |- *.
    apply Permutation_cons_inv in Hp. f_equal. now apply IH.
Qed.

Lemma sort_frames_names (fs : list PreviewFrame) :
  Permutation (map PreviewFrame_str (sort_frames fs)) (map PreviewFrame_str fs).
Proof. apply Permutation_map, Permutation_sym, sort_frames_perm. Qed.

(** What a sampling call saves, field by field. *)
Lemma add_saved (E : Externals) (self : ImageStream.t) (p : Payload) (f : file) :
  In f (snd (fst (ImageStream.add E self p))) ->
  eye_id (fst f) = ImageStream.eye_id self
  /\ frame_num (fst f) = ImageStream.counter self + 1
  /\ format (fst f) = ImageStream.frame_format self
  /\ exists g c,
       confidence (fst f) = detect_confidence E (ImageStream.detector self) g c.
Proof.
  unfold ImageStream.add.
  cbn [ImageStream.tick ImageStream.frame_per_frames ImageStream.counter
       ImageStream.eye_id ImageStream.frame_format ImageStream.detector].
  destruct (ImageStream.frame_per_frames self =? 0); [intros []|].
  destruct (_ mod _ =? 0); [|intros []].
  destruct (negb (ImageStream.supported (p_format p))); [intros []|].
  destruct (ImageStream.last_buffer p) as [data|]; [|intros []].
  match goal with
  | |- context [if ?b then _ else _] => destruct b
  end; [|intros []].
  match goal with
  | |- context [ImageStream.views ?a ?b ?c ?d] =>
      destruct (ImageStream.views a b c d) as [[g col]|e]
  end; [|intros []].
  cbn [fst snd]. intros [<-|[]]. cbn [fst eye_id frame_num format confidence].
  repeat split. exists g, col. reflexivity.
Qed.

Lemma feed_saved (E : Externals) (ps : list Payload) :
  forall self f,
    In f (saved (feed E self ps)) ->
    eye_id (fst f) = ImageStream.eye_id self
    /\ ImageStream.counter self < frame_num (fst f)
    /\ format (fst f) = ImageStream.frame_format self
    /\ exists s g c, confidence (fst f) = detect_confidence E s g c.
Proof.
  induction ps as [|p ps IH]; intros self f; [intros []|].
  cbn [feed].
  pose proof (@add_saved E self p f) as Ha.
  pose proof (add_cases E self p) as Hc.
  destruct (ImageStream.add E self p) as [[self1 w] r]. cbn [fst snd saved] in Ha |- *.
  assert (Hs : self1 = ImageStream.tick self).
  { destruct Hc as [[_ Hc] | [(_ & _ & Hc) | (_ & _ & [[e Hc] | (conf & img & Hc)])]];
      now injection Hc as -> _ _. }
  intros Hin. apply in_app_or in Hin as [Hin|Hin].
  - destruct (Ha Hin) as (A & B & C & g & c & D).
    repeat split; try assumption; [lia|]. eexists _, g, c. exact D.
  - subst self1. destruct (IH _ _ Hin) as (A & B & C & D).
    rewrite tick_counter in B. repeat split; try assumption. lia.
Qed.

(** X20.  What one stream writes, the loader reads back.  Take a stream
    with a non-negative eye id whose detector reports confidences between
    [0.0] and [1.0], and a folder that holds exactly the files the stream
    saved in a series of calls, listed by the file system in any order.
    Then [load_all] returns one tuple per file, each holding a single frame,
    in the order in which the stream saved them, and every frame read back
    has the name of the file it stands for. *)
Theorem stream_read_back (E : Externals) (self : ImageStream.t) (ps : list Payload)
  (listing : list string) :
  0 <= ImageStream.eye_id self ->
  0 <= ImageStream.counter self ->
  (forall s g c, in_unit_interval (detect_confidence E s g c) = true) ->
  Permutation listing (names (saved (feed E self ps))) ->
  exists frames,
    load_all listing = Ok (map (fun f => [f]) frames)
    /\ map PreviewFrame_str frames = names (saved (feed E self ps)).
Proof.
  intros He Hc Hconf Hperm.
  set (written := saved (feed E self ps)) in *.
  assert (Hnamed : Forall (fun name => exists f, decode_name name = Some (Ok f)
                                        /\ PreviewFrame_str f = name
                                        /\ eye_id f = ImageStream.eye_id self) listing).
  { apply Forall_forall. intros name Hin.
    apply (Permutation_in _ Hperm) in Hin. unfold names in Hin.
    apply in_map_iff in Hin as (w & <- & Hw).
    destruct (@feed_saved E ps self w Hw) as (A & B & _ & s & g & c & D).
    destruct (@decode_encoded (fst w)) as (r' & R1 & R2 & R3 & _);
      [lia|lia|rewrite D; apply Hconf|].
    exists r'. repeat split; [exact R1|exact R2|congruence]. }
  destruct (decode_all_named Hnamed) as (fs & Hd & Hn & Heyes).
  exists (sort_frames fs). split; [exact (load_all_one_eye listing Hd Heyes)|].
  unfold names. rewrite <- (map_map fst PreviewFrame_str).
  apply sorted_names_unique.
  - rewrite map_map. fold (names written).
    eapply Permutation_trans; [apply sort_frames_names|].
    rewrite Hn. exact Hperm.
  - apply sort_frames_sorted.
  - destruct (feed_increasing E ps self) as [Hs _]. fold written in Hs.
    unfold frame_nums in Hs. rewrite <- (map_map fst frame_num) in Hs.
    clear -Hs. induction (map fst written) as [|a l IH]; [constructor|].
    cbn [map] in Hs. apply StronglySorted_inv in Hs as [Hs Hf].
    constructor; [now apply IH|].
    rewrite Forall_map in Hf. exact Hf.
Qed.

Lemma stream_read_back_witness :
  exists frames,
    load_all ["eye7_frame6_confidence0.5000.jpg"; "eye7_frame3_confidence0.5000.jpg"]
    = Ok (map (fun f => [f]) frames)
    /\ map PreviewFrame_str frames
       = ["eye7_frame3_confidence0.5000.jpg"; "eye7_frame6_confidence0.5000.jpg"].
Proof.
  assert (N : names (saved (feed plain_externals (fresh_stream 7 3 2 2)
                              (repeat (gray_payload 2 2 4) 7)))
              = ["eye7_frame3_confidence0.5000.jpg"; "eye7_frame6_confidence0.5000.jpg"])
    by (vm_compute; reflexivity).
  rewrite <- N.
  apply (@stream_read_back plain_externals (fresh_stream 7 3 2 2)
           (repeat (gray_payload 2 2 4) 7)).
  - cbn. lia.
  - cbn. lia.
  - intros s g c. reflexivity.
  - rewrite N. apply perm_swap.
Defined.

(* ================================================================== *)
(** * The protocol of the worker *)
(* ================================================================== *)

Lemma body_protocol (E : Externals) (params : PreviewGenerator.t) (W : PreviewGenerator.World) :
  exists k,
    fst (fst (PreviewGenerator.body E params W)) = firstn k (announcements params)
    /\ (snd (fst (PreviewGenerator.body E params W)) <> [] -> k = 2%nat)
    /\ (snd (PreviewGenerator.body E params W) = PreviewGenerator.Polling -> k = 2%nat)
    /\ (snd (PreviewGenerator.body E params W) = PreviewGenerator.Done -> k = 2%nat).
Proof.
  unfold PreviewGenerator.body.
  destruct (PreviewGenerator.connecting_send W).
  { exists 0%nat. cbn [fst snd]. repeat split; try discriminate. intros N; now elim N. }
  destruct (PreviewGenerator.zmq_context W).
  { exists 1%nat. cbn [fst snd]. repeat split; try discriminate. intros N; now elim N. }
  destruct (PreviewGenerator.msg_receiver W).
  { exists 1%nat. cbn [fst snd]. repeat split; try discriminate. intros N; now elim N. }
  destruct (PreviewGenerator.starting_send W).
  { exists 1%nat. cbn [fst snd]. repeat split; try discriminate. intros N; now elim N. }
  exists 2%nat.
  destruct (PreviewGenerator.loop E params [] [] (PreviewGenerator.turns W)) as [files fl].
  cbn [fst snd]. repeat split.
Qed.

(** X21.  The status pipe of a run carries, in this order, the
    announcement of the connection, the announcement of the start, and at
    most one exception, which is always the last message and always an
    instance of [Exception]; a run that sent an exception has returned.
    Files are written only after both announcements were sent, and a run
    that is still polling or has returned on request has sent exactly the
    two announcements. *)
Theorem worker_protocol (E : Externals) (params : PreviewGenerator.t)
  (W : PreviewGenerator.World) :
  let r := PreviewGenerator.generate E params W in
  exists k fails,
    PreviewGenerator.statuses r = (firstn k (announcements params) ++ fails)%list
    /\ (fails = []
        \/ exists e, fails = [PreviewGenerator.Failure e] /\ is_Exception e = true
                     /\ PreviewGenerator.end_ r = PreviewGenerator.Returned)
    /\ (PreviewGenerator.written r <> [] -> k = 2%nat)
    /\ (PreviewGenerator.end_ r = PreviewGenerator.Running ->
        PreviewGenerator.statuses r = announcements params)
    /\ (PreviewGenerator.end_ r = PreviewGenerator.Returned -> fails = [] ->
        PreviewGenerator.statuses r = announcements params).
Proof.
  intros r. subst r.
  destruct (body_protocol E params W) as (k & Hlog & Hfiles & Hpoll & Hdone).
  unfold PreviewGenerator.generate.
  destruct (PreviewGenerator.body E params W) as [[log files] [|e|]];
    cbn [fst snd] in Hlog, Hfiles, Hpoll, Hdone.
  - exists k, []. cbn [PreviewGenerator.statuses PreviewGenerator.written PreviewGenerator.end_].
    rewrite List.app_nil_r. split; [exact Hlog|]. split; [now left|].
    split; [exact Hfiles|]. split; [discriminate|].
    intros _ _. rewrite Hlog, (Hdone eq_refl). reflexivity.
  - destruct (is_Exception e) eqn:He.
    + destruct (PreviewGenerator.report_send W) as [e'|].
      * exists k, [].
        cbn [PreviewGenerator.statuses PreviewGenerator.written PreviewGenerator.end_].
        rewrite List.app_nil_r. split; [exact Hlog|]. split; [now left|].
        split; [exact Hfiles|]. split; discriminate.
      * exists k, [PreviewGenerator.Failure e].
        cbn [PreviewGenerator.statuses PreviewGenerator.written PreviewGenerator.end_].
        split; [now rewrite Hlog|]. split; [right; exists e; now repeat split|].
        split; [exact Hfiles|]. split; discriminate.
    + exists k, [].
      cbn [PreviewGenerator.statuses PreviewGenerator.written PreviewGenerator.end_].
      rewrite List.app_nil_r. split; [exact Hlog|]. split; [now left|].
      split; [exact Hfiles|]. split; discriminate.
  - exists k, []. cbn [PreviewGenerator.statuses PreviewGenerator.written PreviewGenerator.end_].
    rewrite List.app_nil_r. split; [exact Hlog|]. split; [now left|].
    split; [exact Hfiles|]. split; [|discriminate].
    intros _. rewrite Hlog, (Hpoll eq_refl). reflexivity.
Qed.



(* ================================================================== *)
(** * Showing what was loaded *)
(* ================================================================== *)



Lemma StronglySorted_nth {A : Type} (R : A -> A -> Prop) (l : list A) :
  StronglySorted R l ->
  forall i j a b,
    (i < j)%nat -> nth_error l i = Some a -> nth_error l j = Some b -> R a b.
Proof.
  induction 1 as [|x l Hs IH Hf]; intros i j a b Hij Ha Hb.
  - destruct i; discriminate Ha.
  - destruct j as [|j]; [lia|]. cbn [nth_error] in Hb.
    destruct i as [|i]; cbn [nth_error] in Ha.
    + injection Ha as <-. rewrite Forall_forall in Hf. apply Hf.
      eapply nth_error_In. exact Hb.
    + apply (IH i j a b); [lia|assumption|assumption].
Qed.

Lemma Forall2_join {A B : Type} (P Q : A -> B -> Prop) (R : B -> B -> Prop) (l : list A) :
  forall t1 t2,
    Forall2 P l t1 -> Forall2 Q l t2 ->
    (forall g x y, In g l -> P g x -> Q g y -> R x y) ->
    Forall2 R t1 t2.
Proof.
  induction l as [|g l IH]; intros t1 t2 H1 H2 HR.
  - inversion H1. inversion H2. constructor.
  - inversion H1 as [|? x ? t1' Hx H1']. inversion H2 as [|? y ? t2' Hy H2']. subst.
    constructor.
    + apply (HR g); [now left|assumption|assumption].
    + apply IH; [assumption|assumption|].
      intros g' x' y' Hin. apply HR. now right.
Qed.

(** X24.  The tuples [load_all] returns go forward in time for every
    eye at once: position by position, a later tuple holds a frame of the
    same eye id as an earlier one and with a frame number that is not
    smaller.  So stepping to the next tuple in the window never steps back
    for any eye. *)
Theorem loaded_tuples_ascend (listing : list string) (ps : list (list PreviewFrame))
  (i j : nat) (t1 t2 : list PreviewFrame) :
  load_all listing = Ok ps ->
  nth_error ps i = Some t1 ->
  nth_error ps j = Some t2 ->
  (i <= j)%nat ->
  Forall2 (fun a b => eye_id a = eye_id b /\ frame_num a <= frame_num b) t1 t2.
Proof.
  rewrite (load_all_decode listing).
  destruct (decode_all listing) as [fs|e]; cbn [bind]; [|discriminate].
  intros [= <-] H1 H2 Hij.
  apply zip_star_nth in H1. apply zip_star_nth in H2.
  apply (@Forall2_join _ _ _ _ _ _ t1 t2 H1 H2).
  intros g x y Hg Hx Hy.
  apply in_map_iff in Hg as ([k l] & <- & Hkl). cbn [snd] in Hx, Hy.
  destruct (group_frames_spec fs) as (_ & _ & Hrec).
  rewrite Forall_forall in Hrec. specialize (Hrec _ Hkl). cbn [fst snd] in Hrec. subst l.
  assert (Heye : forall z, In z (sort_frames (records_of k fs)) -> eye_id z = k).
  { intros z Hz.
    apply (Permutation_in _ (Permutation_sym (sort_frames_perm (records_of k fs)))) in Hz.
    unfold records_of in Hz. apply filter_In in Hz as [_ Hz]. now apply Z.eqb_eq. }
  split.
  - rewrite (Heye x (nth_error_In _ _ Hx)), (Heye y (nth_error_In _ _ Hy)). reflexivity.
  - destruct (Nat.eq_dec i j) as [->|Hne].
    + rewrite Hx in Hy. injection Hy as <-. lia.
    + exact (@StronglySorted_nth _ le_frame_num _ (sort_frames_sorted (records_of k fs))
               i j x y ltac:(lia) Hx Hy).
Qed.

Lemma loaded_tuples_ascend_witness :
  Forall2 (fun a b => eye_id a = eye_id b /\ frame_num a <= frame_num b)
    [mkPreviewFrame 1 20 FNaN JPEG; mkPreviewFrame 0 10 FNaN JPEG]
    [mkPreviewFrame 1 40 FNaN JPEG; mkPreviewFrame 0 20 FNaN JPEG].
Proof.
  apply (@loaded_tuples_ascend
           ["eye1_frame40_confidencenan.jpg"; "eye0_frame20_confidencenan.jpg";
            "eye1_frame20_confidencenan.jpg"; "eye0_frame10_confidencenan.jpg";
            "eye0_frame30_confidencenan.jpg"]
           [[mkPreviewFrame 1 20 FNaN JPEG; mkPreviewFrame 0 10 FNaN JPEG];
            [mkPreviewFrame 1 40 FNaN JPEG; mkPreviewFrame 0 20 FNaN JPEG]]
           0%nat 1%nat).
  - vm_compute. reflexivity.
  - reflexivity.
  - reflexivity.
  - lia.
Defined.

(* ================================================================== *)
(** * Names that are written but not read *)
(* ================================================================== *)

Lemma all_chars_append (p : ascii -> bool) (a b : string) :
  all_chars p (a ++ b) = all_chars p a && all_chars p b.
Proof.
  induction a as [|c a IH]; cbn [append all_chars]; [reflexivity|].
  now rewrite IH, andb_assoc.
Qed.

Lemma token_no_underscore (g : string) :
  is_token g -> all_chars (fun k => negb (Ascii.eqb k "_")) g = true.
Proof.
  assert (D : forall s, all_chars is_digit s = true ->
                        all_chars (fun k => negb (Ascii.eqb k "_")) s = true).
  { intros s. apply all_chars_impl. intros c Hc.
    destruct (Ascii.eqb_spec c "_") as [->|_]; [discriminate Hc|reflexivity]. }
  assert (W : forall s, all_chars is_lower s = true ->
                        all_chars (fun k => negb (Ascii.eqb k "_")) s = true).
  { intros s. apply all_chars_impl. intros c Hc.
    destruct (Ascii.eqb_spec c "_") as [->|_]; [discriminate Hc|reflexivity]. }
  unfold is_token, is_digits, is_word.
  intros [H | [(i & f & -> & Hi & Hf) | H]].
  - apply andb_true_iff in H as [_ H]. now apply D.
  - apply andb_true_iff in Hi as [_ Hi]. apply andb_true_iff in Hf as [_ Hf].
    rewrite !all_chars_append, (D _ Hi), (D _ Hf). reflexivity.
  - apply andb_true_iff in H as [_ H]. now apply W.
Qed.

Lemma token_not_minus (g rest tail : string) :
  is_token g -> g ++ rest = String "-" tail -> False.
Proof.
  intros Ht E. destruct g as [|c g].
  - destruct Ht as [H | [(i & f & E' & Hi & _) | H]]; try discriminate H.
    destruct i; discriminate.
  - cbn [append] in E. injection E as -> _.
    destruct (token_head Ht) as [H|H]; discriminate H.
Qed.

Lemma str_int_negative (z : Z) : z < 0 -> exists tail, str_int z = String "-" tail.
Proof.
  intros Hz. destruct z as [|p|p]; try lia.
  unfold str_int. cbn [Z.to_int NilZero.string_of_int]. eexists. reflexivity.
Qed.

Lemma format_05_4f_negative (x : pyfloat) :
  sign_bit x = true -> exists tail, format_05_4f x = String "-" tail.
Proof.
  destruct x as [|neg|neg m e]; cbn [sign_bit]; intros H; try discriminate H; subst neg;
    cbn [format_05_4f]; unfold zero_pad; cbn [append]; eexists; reflexivity.
Qed.

(** X25.  A frame with a negative eye id, a negative frame number or a
    confidence that prints with a minus sign is written under a name the
    loader does not recognise: the extractor does not match the name, the
    file is skipped without an error, and a folder holding only that file
    loads as empty. *)
Theorem negative_fields_skipped (r : PreviewFrame) :
  eye_id r < 0 \/ frame_num r < 0 \/ sign_bit (confidence r) = true ->
  decode_name (PreviewFrame_str r) = None
  /\ load_all [PreviewFrame_str r] = Ok [].
Proof.
  intros Hneg.
  assert (Hfull : fullmatch info_extractor (PreviewFrame_str r) = None).
  { destruct (fullmatch info_extractor (PreviewFrame_str r)) as [cs|] eqn:E; [|reflexivity].
    exfalso.
    apply fullmatch_info_extractor in E
      as (g1 & g2 & g3 & c & g4 & Hname & _ & T1 & T2 & T3 & _).
    rewrite PreviewFrame_str_fields in Hname.
    cbn [append] in Hname. injection Hname as Hname.
    destruct (Z.ltb_spec (eye_id r) 0) as [He|He].
    { destruct (str_int_negative He) as [tail Ht]. rewrite Ht in Hname.
      cbn [append] in Hname. symmetry in Hname.
      exact (@token_not_minus g1 _ _ T1 Hname). }
    symmetry in Hname.
    apply append_cut in Hname;
      [|now apply token_no_underscore|apply str_int_no_underscore].
    destruct Hname as [_ Hname]. injection Hname as Hname.
    destruct (Z.ltb_spec (frame_num r) 0) as [Hn|Hn].
    { destruct (str_int_negative Hn) as [tail Ht]. rewrite Ht in Hname.
      cbn [append] in Hname.
      exact (@token_not_minus g2 _ _ T2 Hname). }
    apply append_cut in Hname;
      [|now apply token_no_underscore|apply str_int_no_underscore].
    destruct Hname as [_ Hname]. injection Hname as Hname.
    destruct Hneg as [Hneg | [Hneg | Hneg]]; try lia.
    destruct (format_05_4f_negative _ Hneg) as [tail Ht]. rewrite Ht in Hname.
    cbn [append] in Hname.
    exact (@token_not_minus g3 _ _ T3 Hname). }
  assert (D : decode_name (PreviewFrame_str r) = None).
  { rewrite decode_name_unfold. unfold decode_with. rewrite Hfull.
    destruct (fnmatch file_pattern (PreviewFrame_str r)); reflexivity. }
  split; [exact D|].
  rewrite (load_all_decode [PreviewFrame_str r]). cbn [decode_all].
  rewrite D. reflexivity.
Qed.

Lemma negative_fields_skipped_witness :
  decode_name (PreviewFrame_str (mkPreviewFrame (-1) 3 (FFinite false 1 (-1)) JPEG)) = None
  /\ load_all [PreviewFrame_str (mkPreviewFrame (-1) 3 (FFinite false 1 (-1)) JPEG)] = Ok [].
Proof.
  apply (@negative_fields_skipped (mkPreviewFrame (-1) 3 (FFinite false 1 (-1)) JPEG)).
  left. cbn. lia.
Defined.
